(** * Question Extraction Engine of the voice assistant (parser.py)

    A shallow embedding of [extract_questions] and of the question sorter of
    [main], with the properties of the extraction engine proved about them.

    Modelling conventions.
    - A Python [str] is a [string]; the model covers ASCII text.  The character
      classes below ([\s], [\d], [\w], [str.lower], [str.upper]) are Python's
      on the code points 0..127; the characters 128..255 of the type are
      treated as caseless symbols.
    - [extract_questions(path)] first calls [get_all_text(path)], which reads
      the document; the model starts from the list [raw_lines] it returns.
    - The cursor [i] over the immutable list [lines] is represented by the
      suffix [lines[i:]] still to be read: [i < len(lines)] is "the suffix is
      not empty", [lines[i]] is its head and [i += 1] drops the head.
    - Operations that can raise in Python return in the error monad [res];
      the main loop runs on fuel, and [Diverge] stands for a loop that
      would not end.
    - [sorted] is Python's built-in stable sort, modelled by a stable
      insertion sort.

    The file first gives the model, then the vocabulary in which the
    properties are stated, then the properties, claim by claim (C1..C10). *)

From Stdlib Require Import Ascii NArith ZArith.
From Stdlib Require DecimalString DecimalPos DecimalZ.
From stdpp Require Import gmap strings list sorting.

Local Open Scope N_scope.

(** ** Characters *)

Definition code (c : ascii) : N := N_of_ascii c.

Definition between (lo hi : N) (c : ascii) : bool :=
  (lo <=? code c) && (code c <=? hi).

(** Python's whitespace for [str] below 128: TAB..CR, FS..US and the space. *)
Definition is_space (c : ascii) : bool := between 9 13 c || between 28 32 c.

Definition is_digit (c : ascii) : bool := between 48 57 c.

Definition is_upper (c : ascii) : bool := between 65 90 c.

Definition is_lower (c : ascii) : bool := between 97 122 c.

(** [\w]: letters, digits and the underscore. *)
Definition is_word (c : ascii) : bool :=
  is_upper c || is_lower c || is_digit c || (code c =? 95).

Definition lower_char (c : ascii) : ascii :=
  if is_upper c then ascii_of_N (code c + 32) else c.

Definition upper_char (c : ascii) : ascii :=
  if is_lower c then ascii_of_N (code c - 32) else c.

Definition newline : ascii := "010"%char.

Local Close Scope N_scope.

(** ** Strings: the [str] methods used by the parser *)

Fixpoint str_map (f : ascii → ascii) (s : string) : string :=
  match s with
  | EmptyString => EmptyString
  | String c s' => String (f c) (str_map f s')
  end.

(** [s.lower()] and [s.upper()], on ASCII text.  Python's methods also map
    characters above 127, [upper] even to several characters; the parser
    calls [upper] on a matched option letter only, and a property that
    depends on the case of other text assumes [str_isascii]. *)
Definition str_lower : string → string := str_map lower_char.
Definition str_upper : string → string := str_map upper_char.

(** [s.isascii()] *)
Fixpoint str_isascii (s : string) : bool :=
  match s with
  | String c s' => (code c <? 128)%N && str_isascii s'
  | EmptyString => true
  end.

(** [s.startswith(p)] *)
Fixpoint str_startswith (p s : string) : bool :=
  match p, s with
  | EmptyString, _ => true
  | String a p', String b s' => Ascii.eqb a b && str_startswith p' s'
  | String _ _, EmptyString => false
  end.

(** [key in s] *)
Fixpoint str_in (key s : string) : bool :=
  str_startswith key s ||
  match s with
  | EmptyString => false
  | String _ s' => str_in key s'
  end.

(** [s.lstrip()], also the greedy [\s*] of the regular expressions *)
Fixpoint str_lstrip (s : string) : string :=
  match s with
  | String c s' => if is_space c then str_lstrip s' else s
  | EmptyString => EmptyString
  end.

Fixpoint str_rstrip (s : string) : string :=
  match s with
  | String c s' =>
      match str_rstrip s' with
      | EmptyString => if is_space c then EmptyString else String c EmptyString
      | r => String c r
      end
  | EmptyString => EmptyString
  end.

(** [s.strip()] *)
Definition str_strip (s : string) : string := str_rstrip (str_lstrip s).

(** [sep.join(ls)] *)
Fixpoint str_join (sep : string) (ls : list string) : string :=
  match ls with
  | [] => ""
  | [s] => s
  | s :: ls' => s +:+ sep +:+ str_join sep ls'
  end.

(** [s[1:]] *)
Definition str_tail (s : string) : string :=
  match s with
  | String _ s' => s'
  | EmptyString => EmptyString
  end.

(** ** The error monad *)

Inductive exn := IndexError.

(** [Diverge] is the model running out of fuel: Python would still be looping. *)
Inductive res (A : Type) : Type :=
  | Ok (a : A)
  | Raise (e : exn)
  | Diverge.
Arguments Ok {A} a.
Arguments Raise {A} e.
Arguments Diverge {A}.

Definition res_bind {A B} (m : res A) (k : A → res B) : res B :=
  match m with
  | Ok a => k a
  | Raise e => Raise e
  | Diverge => Diverge
  end.

Notation "x ←! m ; k" := (res_bind m (fun x => k))
  (at level 20, m at level 100, k at level 200, right associativity,
   format "x  ←!  m ;  '/' k").
Notation "' p ←! m ; k" := (res_bind m (fun x => let 'p := x in k))
  (at level 20, p pattern, m at level 100, k at level 200, right associativity).

(** [s[0]]: raises [IndexError] on the empty string *)
Definition str_first (s : string) : res string :=
  match s with
  | String c _ => Ok (String c EmptyString)
  | EmptyString => Raise IndexError
  end.

(** ** Line Normalizer and Noise Filter *)

(** [re.sub(r"\s+", " ", s)]: every maximal run of whitespace becomes one
    space; [in_run] tells that the previous character was whitespace. *)
Fixpoint sub_spaces (in_run : bool) (s : string) : string :=
  match s with
  | String c s' =>
      if is_space c
      then if in_run then sub_spaces true s' else String " " (sub_spaces true s')
      else String c (sub_spaces false s')
  | EmptyString => EmptyString
  end.

Definition clean_line (s : string) : string := sub_spaces false (str_strip s).

Definition EXCLUDE_SUBSTRS : list string :=
  [ "answer all questions"; "name & signature"; "department of data science";
    "max. marks"; "time duration"; "affiliated to"; "college";
    "batch:"; "class:"; "subject title:"; "semester:";
    "mid term"; "reviewer" ].

Definition is_excluded (line : string) : bool :=
  let l := str_lower line in
  existsb (fun key => str_in key l) EXCLUDE_SUBSTRS.

(** The first loop of [extract_questions]: [prev] is [None] before the first
    line and the cleaned previous raw line afterwards, whether or not that
    line was kept. *)
Fixpoint normalize_from (prev : option string) (raw_lines : list string)
  : list string :=
  match raw_lines with
  | [] => []
  | l :: raw_lines' =>
      let l := clean_line l in
      let keep := negb (String.eqb l "") && negb (bool_decide (Some l = prev)) in
      (if keep then [l] else []) ++ normalize_from (Some l) raw_lines'
  end.

Definition normalize (raw_lines : list string) : list string :=
  normalize_from None raw_lines.

(** ** The regular expressions

    In the comments REST stands for the dot-star of the source pattern: any
    characters but a newline, as many as possible.

    Each matcher follows the greedy path of Python's backtracking matcher.
    The only place where a pattern ending in [(REST)$] can fail after its
    prefix matched is the final [$]; giving back whitespace or a digit to a
    later part of the pattern only moves the start of the last group to the
    left, which cannot turn a failure of [$] into a success.  So the greedy
    path decides the match and gives the groups. *)

(** [\d{1,2}] at the start of [s]: the digits taken and what follows. *)
Definition re_digits12 (s : string) : option (string * string) :=
  match s with
  | String a (String b s') =>
      if is_digit a
      then if is_digit b
           then Some (String a (String b ""), s')
           else Some (String a "", String b s')
      else None
  | String a EmptyString => if is_digit a then Some (String a "", "") else None
  | EmptyString => None
  end.

(** [(REST)$] on the whole of [s]: the dot is any character but the newline, and
    [$] holds at the end and before a newline that ends the string. *)
Fixpoint re_rest_of_line (s : string) : option string :=
  match s with
  | EmptyString => Some ""
  | String c s' =>
      if Ascii.eqb c newline
      then match s' with EmptyString => Some "" | _ => None end
      else String c <$> re_rest_of_line s'
  end.

(** [re.match(r"^(\d{1,2})\s+(REST)$", line)]: the groups [(qnum, stem_text)]. *)
Definition re_number_stem (line : string) : option (string * string) :=
  '(qnum, r) ← re_digits12 line;
  match r with
  | String c _ =>
      if is_space c
      then stem ← re_rest_of_line (str_lstrip r); Some (qnum, stem)
      else None
  | EmptyString => None
  end.

(** [re.fullmatch(r"\d{1,2}", line)] *)
Definition re_number_only (line : string) : bool :=
  match re_digits12 line with
  | Some (_, EmptyString) => true
  | _ => false
  end.

(** [re.match(r"^[ABCD]\b", s, re.I)]: a letter a-d of either case, followed
    by the end of the string or by a character that is not a word character. *)
Definition re_option_line (s : string) : bool :=
  match s with
  | String c s' =>
      bool_decide (upper_char c ∈ ["A"; "B"; "C"; "D"]%char) &&
      match s' with
      | String d _ => negb (is_word d)
      | EmptyString => true
      end
  | EmptyString => false
  end.

(** [([AB])?] at the start of [s]: the group ([""] stands for [None], as
    after [ab = ab or ""]) and what follows. *)
Definition re_variant (s : string) : string * string :=
  match s with
  | String c s' =>
      if bool_decide (c ∈ ["A"; "B"]%char) then (String c "", s') else ("", s)
  | EmptyString => ("", "")
  end.

(** [re.match(r"^(\d{1,2})\s*([AB])?\s*(REST)$", line)]: the groups
    [(qnum, ab, rest)] with [ab or ""] for [ab]. *)
Definition re_opening (line : string) : option (string * string * string) :=
  '(qnum, r) ← re_digits12 line;
  let '(ab, r) := re_variant (str_lstrip r) in
  rest ← re_rest_of_line (str_lstrip r);
  Some (qnum, ab, rest).

(** [re.match(r"^\d{1,2}\s*[AB]?", s)]: everything after the first digit is
    optional. *)
Definition re_opening_prefix (s : string) : bool :=
  match s with
  | String c _ => is_digit c
  | EmptyString => false
  end.

(** ** Questions and the scanning state *)

(** The dictionary [{"section": .., "label": .., "text": ..}] *)
Record Question := mkQuestion {
  section : string;
  label : string;
  text : string
}.

(** The variables of the main loop: [section] ([None] before the first
    header), [result], and the lines from the cursor on, [lines[i:]]. *)
Record State := mkState {
  cur_section : option string;
  result : list Question;
  pending : list string
}.

(** ** Section A (MCQs) *)

(** The loop collecting the option lines: returns the dictionary [options]
    and the lines that follow the last option line. *)
Fixpoint collect_options (options : gmap string string) (ls : list string)
  : res (gmap string string * list string) :=
  match ls with
  | l :: ls' =>
      if re_option_line l then
        c ←! str_first l;
        let letter := str_upper c in
        let value := str_strip (str_tail l) in
        collect_options (<[letter := value]> options) ls'
      else Ok (options, ls)
  | [] => Ok (options, [])
  end.

(** "Build final question text" *)
Definition build_text (stem_text : string) (options : gmap string string)
  : string :=
  foldl (fun text letter =>
           match options !! letter with
           | Some v => text +:+ String newline "" +:+ letter +:+ ". " +:+ v
           | None => text
           end)
        stem_text ["A"; "B"; "C"; "D"].

(** From "Collect options" to [result.append]: [ls] are the lines after the
    stem. *)
Definition finish_mcq (st : State) (qnum stem_text : string) (ls : list string)
  : res State :=
  '(options, ls') ←! collect_options ∅ ls;
  let text := build_text stem_text options in
  Ok (mkState (cur_section st)
              (result st ++ [mkQuestion "A" qnum text])
              ls').

(** The body of [if section == "A":] for [lines[i] = line] and
    [lines[i+1:] = tail]. *)
Definition section_a (st : State) (line : string) (tail : list string)
  : res State :=
  match re_number_stem line with
  | Some (qnum, stem_text) => finish_mcq st qnum stem_text tail
  | None =>
      if re_number_only line then
        match tail with
        | l :: tail' =>
            if negb (re_option_line l)
            then finish_mcq st line (str_strip l) tail'
            else finish_mcq st line "" tail
        | [] => finish_mcq st line "" tail
        end
      else Ok (mkState (cur_section st) (result st) tail)
  end.

(** ** Section B/C *)

(** The inner [while] of the Section B/C branch: returns [ab], [block] and
    the lines from the first one that ends the block. *)
Fixpoint collect_block (ab : string) (block : list string) (ls : list string)
  : string * list string * list string :=
  match ls with
  | l :: ls' =>
      if negb (re_opening_prefix l) &&
         negb (str_startswith "section" (str_lower l))
      then
        if negb (is_excluded l) && negb (String.eqb l "(OR)") then
          if bool_decide (l ∈ ["A"; "B"]) && bool_decide (block = [])
          then collect_block l block ls'
          else collect_block ab (block ++ [l]) ls'
        else collect_block ab block ls'
      else (ab, block, ls)
  | [] => (ab, block, [])
  end.

(** The lines from [m = re.match(..)] on, reached when [section] is set and
    is not ["A"]. *)
Definition section_bc (st : State) (sec line : string) (tail : list string)
  : State :=
  match re_opening line with
  | Some (qnum, ab, rest) =>
      if bool_decide (sec ∈ ["B"; "C"]) then
        let block := if String.eqb rest "" then [] else [rest] in
        let '(ab, block, ls') := collect_block ab block tail in
        let text := str_join " " block in
        mkState (cur_section st)
                (result st ++
                   [mkQuestion sec (str_strip (qnum +:+ " " +:+ ab)) text])
                ls'
      else mkState (cur_section st) (result st) tail
  | None => mkState (cur_section st) (result st) tail
  end.

(** ** The main loop *)

(** One iteration of [while i < len(lines)], with [lines[i] = line] and
    [lines[i+1:] = tail]. *)
Definition loop_body (st : State) (line : string) (tail : list string)
  : res State :=
  if str_startswith "section a" (str_lower line) then
    Ok (mkState (Some "A") (result st) tail)
  else if str_startswith "section b" (str_lower line) then
    Ok (mkState (Some "B") (result st) tail)
  else if str_startswith "section c" (str_lower line) then
    Ok (mkState (Some "C") (result st) tail)
  else
    match cur_section st with
    | None => Ok (mkState (cur_section st) (result st) tail)
    | Some sec =>
        if is_excluded line then
          Ok (mkState (cur_section st) (result st) tail)
        else if String.eqb sec "A" then section_a st line tail
        else Ok (section_bc st sec line tail)
    end.

Fixpoint loop (fuel : nat) (st : State) : res (list Question) :=
  match pending st with
  | [] => Ok (result st)
  | line :: tail =>
      match fuel with
      | O => Diverge
      | S fuel' => st' ←! loop_body st line tail; loop fuel' st'
      end
  end.

(** [extract_questions], from the lines read by [get_all_text].  An
    iteration consumes at least one line, so [len(lines)] iterations are
    enough (proved below). *)
Definition extract_questions (raw_lines : list string) : res (list Question) :=
  let lines := normalize raw_lines in
  loop (length lines) (mkState None [] lines).

(** ** Canonical Sorter: [sort_key] and [sorted] of [main] *)

Definition section_order : gmap string N :=
  <["A" := 1%N]> (<["B" := 2%N]> (<["C" := 3%N]> ∅)).

(** The longest prefix of digits, [(\d+)] at the start of [s] *)
Fixpoint re_digits (s : string) : string :=
  match s with
  | String c s' => if is_digit c then String c (re_digits s') else ""
  | EmptyString => ""
  end.

(** [int(s)] for a string of decimal digits ([acc] is the value read so far) *)
Fixpoint int_of_digits (acc : N) (s : string) : N :=
  match s with
  | String c s' => int_of_digits (10 * acc + (code c - 48))%N s'
  | EmptyString => acc
  end.

(** The key is the tuple [(rank, qnum, label.strip())]; the pattern
    [^\s*(\d+)] matches when digits follow the leading whitespace. *)
Definition sort_key (x : Question) : N * N * string :=
  let m := re_digits (str_lstrip (label x)) in
  let qnum := if String.eqb m "" then 9999%N else int_of_digits 0 m in
  (default 99%N (section_order !! section x), qnum, str_strip (label x)).

(** [a < b] on the key tuples: the first components that differ decide;
    strings compare by code points. *)
Definition key_lt (a b : N * N * string) : bool :=
  let '(a1, a2, a3) := a in
  let '(b1, b2, b3) := b in
  if negb (a1 =? b1)%N then (a1 <? b1)%N
  else if negb (a2 =? b2)%N then (a2 <? b2)%N
  else String.ltb a3 b3.

(** [sorted(questions, key=sort_key)] is Python's stable sort.  It is
    modelled by insertion from the right: an element goes in front of the
    first element whose key is not smaller than its own, hence in front of
    the elements with an equal key that followed it in the input. *)
Fixpoint insert_by_key (x : Question) (l : list Question) : list Question :=
  match l with
  | [] => [x]
  | y :: l' =>
      if key_lt (sort_key y) (sort_key x) then y :: insert_by_key x l'
      else x :: l
  end.

Definition sorted (questions : list Question) : list Question :=
  foldr insert_by_key [] questions.

(** ** Vocabulary of the properties *)

(** The three header tests of the main loop *)
Definition is_header (line : string) : bool :=
  str_startswith "section a" (str_lower line) ||
  str_startswith "section b" (str_lower line) ||
  str_startswith "section c" (str_lower line).

(** An iteration leaves [result] alone or appends one question to it. *)
Definition emits (st st' : State) (q : Question) : Prop :=
  result st' = result st ++ [q].

(** No two neighbours of the list are equal. *)
Definition adjacent_distinct (l : list string) : Prop :=
  ∀ i x y, l !! i = Some x → l !! S i = Some y → x ≠ y.

(** Whitespace only *)
Fixpoint all_space (s : string) : bool :=
  match s with
  | String c s' => is_space c && all_space s'
  | EmptyString => true
  end.

(** The words of the specification: the letter and the text of an option
    line, the text of the last option line with a given letter, and one line
    "letter, dot, space, text" per letter present, in the order A, B, C, D. *)
Definition option_letter (l : string) : string :=
  match l with
  | String c _ => String (upper_char c) ""
  | EmptyString => ""
  end.

Definition option_text (l : string) : string := str_strip (str_tail l).

Fixpoint last_option (letter : string) (opts : list string) : option string :=
  match opts with
  | [] => None
  | l :: opts' =>
      match last_option letter opts' with
      | Some v => Some v
      | None =>
          if String.eqb (option_letter l) letter then Some (option_text l)
          else None
      end
  end.

Definition option_line_of (opts : list string) (letter : string) : string :=
  match last_option letter opts with
  | Some v => String newline "" +:+ letter +:+ ". " +:+ v
  | None => ""
  end.

Definition option_lines (opts : list string) : string :=
  option_line_of opts "A" +:+ option_line_of opts "B" +:+
  option_line_of opts "C" +:+ option_line_of opts "D".

(** The three ways in which Section A opens a question at [line], with the
    lines [rest] after it: the label, the stem, and the lines after the stem. *)
Inductive mcq_opening (line : string) (rest : list string)
  : string → string → list string → Prop :=
  | open_number_stem qnum stem :
      re_number_stem line = Some (qnum, stem) →
      mcq_opening line rest qnum stem rest
  | open_number_then_stem l rest' :
      re_number_only line = true → rest = l :: rest' →
      re_option_line l = false →
      mcq_opening line rest line (str_strip l) rest'
  | open_number_alone :
      re_number_only line = true →
      (∀ l rest', rest = l :: rest' → re_option_line l = true) →
      mcq_opening line rest line "" rest.

(** The block of a Section B/C question is the run of lines after its
    opening line, up to the next line that starts with a digit or with
    "section" (any case), or to the end.  [block_boundary] tells the lines
    that end a block, [body_line] the lines of a block that are neither
    noise nor the marker "(OR)". *)
Definition block_boundary (l : string) : bool :=
  re_opening_prefix l || str_startswith "section" (str_lower l).

Definition body_line (l : string) : bool :=
  negb (is_excluded l) && negb (String.eqb l "(OR)").

(** A line that is exactly the variant letter *)
Definition variant_line (l : string) : bool := bool_decide (l ∈ ["A"; "B"]).

Fixpoint drop_variant_lines (ls : list string) : list string :=
  match ls with
  | l :: ls' => if variant_line l then drop_variant_lines ls' else ls
  | [] => []
  end.

(** The continuation lines of a block whose opening line has the rest
    [rest]: the body lines of the block, in their order; when the opening
    line has no rest, without the variant letters that come before any
    other body line. *)
Definition continuation_lines (rest : string) (block : list string)
  : list string :=
  let kept := filter (λ l, body_line l = true) block in
  if String.eqb rest "" then drop_variant_lines kept else kept.

(** The body of a Section B/C question [q] read from the lines [lines]:
    [q] has an opening line in [lines] that is not noise, with the number
    of [q] and the rest [rest]; the block of [q] is the run of lines
    after the opening line up to the first boundary line or the end; the
    text joins with single spaces the rest, when not empty, and the
    continuation lines of the block.  Neither the rest nor a continuation
    line is noise, and no continuation line is the marker "(OR)". *)
Definition bc_body (lines : list string) (q : Question) : Prop :=
  ∃ before line block after qnum ab rest ab',
    lines = before ++ line :: block ++ after ∧
    re_opening line = Some (qnum, ab, rest) ∧
    is_excluded line = false ∧
    label q = str_strip (qnum +:+ " " +:+ ab') ∧
    Forall (λ l, block_boundary l = false) block ∧
    (∀ l, head after = Some l → block_boundary l = true) ∧
    text q = str_join " " ((if String.eqb rest "" then [] else [rest]) ++
                           continuation_lines rest block) ∧
    is_excluded rest = false ∧
    Forall (λ l, l ≠ "(OR)" ∧ is_excluded l = false)
           (continuation_lines rest block).

(** The words of the specification for the key: the rank of a section,
    and the leading integer of a label.  The latter is read off a
    decomposition of the label into leading whitespace, a non-empty run of
    decimal digits that no digit follows, and the remainder; its value is
    the one of the standard library's decimal numbers.  There is none when
    the label, after its leading whitespace, does not start with a digit. *)
Definition section_rank (s : string) : N :=
  if String.eqb s "A" then 1
  else if String.eqb s "B" then 2
  else if String.eqb s "C" then 3
  else 99.

Inductive leading_integer (l : string) : option N → Prop :=
  | leading_integer_some ws ds u tail :
      l = ws +:+ ds +:+ tail → all_space ws = true → ds ≠ "" →
      DecimalString.NilEmpty.uint_of_string ds = Some u →
      (∀ c t, tail = String c t → is_digit c = false) →
      leading_integer l (Some (N.of_uint u))
  | leading_integer_none ws tail :
      l = ws +:+ tail → all_space ws = true →
      (∀ c t, tail = String c t → is_digit c = false ∧ is_space c = false) →
      leading_integer l None.

(** The second component of [sort_key], as a function of the label *)
Definition leading_number (l : string) : N :=
  match re_digits (str_lstrip l) with
  | EmptyString => 9999
  | ds => int_of_digits 0 ds
  end.

(** Ascending order of the keys: by rank, then by number, then by the
    trimmed label. *)
Definition key_le (a b : N * N * string) : Prop :=
  (a.1.1 < b.1.1)%N ∨
  (a.1.1 = b.1.1 ∧
   ((a.1.2 < b.1.2)%N ∨ (a.1.2 = b.1.2 ∧ String.leb a.2 b.2 = true))).

(** ** The document reader: [get_all_text]

    The document that [docx.Document(path)] returns is taken as its
    paragraph texts, in order, and its tables, each a list of rows of cell
    texts. *)
Record Document := mkDocument {
  paragraphs : list string;
  tables : list (list (list string))
}.

(** [if t.strip(): lines.append(t.strip())] *)
Definition append_stripped (t : string) : list string :=
  let txt := str_strip t in
  if String.eqb txt "" then [] else [txt].

Definition get_all_text (doc : Document) : list string :=
  flat_map append_stripped (paragraphs doc) ++
  flat_map (λ table, flat_map (λ row, flat_map append_stripped row) table)
           (tables doc).

(** [extract_questions(path)] on the document found at [path] *)
Definition extract_questions_doc (doc : Document) : res (list Question) :=
  extract_questions (get_all_text doc).

(** A string in which every whitespace character is a space that stands
    between two characters that are not whitespace. *)
Fixpoint spaces_inside (s : string) : bool :=
  match s with
  | String c s' =>
      (if is_space c
       then Ascii.eqb c " " &&
            match s' with
            | String d _ => negb (is_space d)
            | EmptyString => false
            end
       else true) && spaces_inside s'
  | EmptyString => true
  end.

Definition single_spaced (s : string) : bool :=
  match s with
  | String c _ => negb (is_space c) && spaces_inside s
  | EmptyString => true
  end.

(** ** Metadata: [extract_metadata] *)

(** What follows the first colon of [s], if there is a colon *)
Fixpoint after_first_colon (s : string) : option string :=
  match s with
  | String c s' => if Ascii.eqb c ":" then Some s' else after_first_colon s'
  | EmptyString => None
  end.

(** [s.split(":", 1)[-1]]: the part after the first colon, or [s] itself
    when it has no colon *)
Definition split_colon_last (s : string) : string :=
  default s (after_first_colon s).

(** [line.split(":", 1)[-1].strip()] *)
Definition metadata_value (line : string) : string :=
  str_strip (split_colon_last line).

Definition is_name_line (line : string) : bool :=
  str_startswith "name:" (str_lower (str_strip line)).

Definition is_subject_line (line : string) : bool :=
  str_startswith "subject title:" (str_lower (str_strip line)).

(** The loop of [extract_metadata], from the values of [name] and
    [subject] reached so far *)
Fixpoint extract_metadata_from (name subject : option string)
    (raw_lines : list string) : option string * option string :=
  match raw_lines with
  | [] => (name, subject)
  | line :: raw_lines' =>
      let name := if is_name_line line then Some (metadata_value line) else name in
      let subject :=
        if is_subject_line line then Some (metadata_value line) else subject in
      extract_metadata_from name subject raw_lines'
  end.

(** [extract_metadata], from the lines read by [get_all_text] *)
Definition extract_metadata (raw_lines : list string)
  : option string * option string :=
  extract_metadata_from None None raw_lines.

(** ** The timer's announcement: [formatted_remaining] *)

(** [str(n)] for an integer *)
Definition str_of_int (n : Z) : string :=
  DecimalString.NilZero.string_of_int (Z.to_int n).

(** [formatted_remaining], from the value [seconds] that [remaining_time]
    returned. *)
Definition formatted_remaining (seconds : Z) : string :=
  if (seconds <=? 0)%Z then "Time is up."
  else
    let '(mins, secs) := (seconds / 60, seconds mod 60)%Z in
    let '(hrs, mins) := (mins / 60, mins mod 60)%Z in
    str_of_int hrs +:+ " hours " +:+ str_of_int mins +:+ " minutes " +:+
    str_of_int secs +:+ " seconds remaining".

(** ** The question-and-answer loop of [main]

    The audio side is taken as given: speaking and recording succeed, and
    [heard] lists what the successive calls of [transcribe_wav] produce,
    [Some t] for a text and [None] for an exception.  [Diverge] is a run
    that still waits for speech after the responses of [heard]. *)

(** The dictionary [{"label": .., "text": .., "answer": ..}] *)
Record Answer := mkAnswer {
  qa_label : string;
  qa_text : string;
  qa_answer : string
}.

(** [try: answer = transcribe_wav(..).lower()  except: answer = ""] *)
Definition heard_answer (h : option string) : string :=
  match h with
  | Some t => str_lower t
  | None => ""
  end.

(** The [while True] loop for question [idx]: the item appended to
    [qa_items], whether it is appended to [qa_progress] too, and the
    responses left. *)
Fixpoint ask (idx : Z) (qtext : string) (heard : list (option string))
  : res (Answer * bool * list (option string)) :=
  match heard with
  | [] => Diverge
  | h :: heard' =>
      let answer := heard_answer h in
      if str_in "skip" answer then
        Ok (mkAnswer (str_of_int idx) qtext "[SKIPPED]", false, heard')
      else if str_in "repeat" answer then ask idx qtext heard'
      else if str_in "time" answer then ask idx qtext heard'
      else Ok (mkAnswer (str_of_int idx) qtext answer, true, heard')
  end.

(** [for idx, q in enumerate(questions, start=1)], from [idx] on *)
Fixpoint ask_all (idx : Z) (questions : list Question)
    (heard : list (option string)) (qa_items qa_progress : list Answer)
  : res (list Answer * list Answer) :=
  match questions with
  | [] => Ok (qa_items, qa_progress)
  | q :: questions' =>
      '(item, normal, heard') ←! ask idx (text q) heard;
      ask_all (idx + 1) questions' heard' (qa_items ++ [item])
        (if normal : bool then qa_progress ++ [item] else qa_progress)
  end.

(** How [main] ends: one of its three early returns, or the answers given
    to [save_answers_docx] together with what the run appended to
    [qa_progress]. *)
Inductive Outcome :=
  | NoMetadata
  | NotConfirmed
  | NoQuestions
  | Saved (qa_items qa_progress : list Answer).

(** [not name] for an optional string *)
Definition falsy (s : option string) : bool :=
  match s with
  | Some (String _ _) => false
  | _ => true
  end.

(** [main], for the document at [INPUT_DOC] *)
Definition main (doc : Document) (heard : list (option string)) : res Outcome :=
  let '(name, subject) := extract_metadata (get_all_text doc) in
  if falsy name || falsy subject then Ok NoMetadata
  else
    match heard with
    | [] => Diverge
    | h :: heard' =>
        let response := heard_answer h in
        if negb (str_in "yes" response) then Ok NotConfirmed
        else
          questions ←! extract_questions_doc doc;
          match questions with
          | [] => Ok NoQuestions
          | _ =>
              let questions := sorted questions in
              '(qa_items, qa_progress) ←! ask_all 1 questions heard' [] [];
              Ok (Saved qa_items qa_progress)
          end
    end.

(** ** Vocabulary of the further properties *)

(** The questions that the scan emits: the section is A, B or C, and the
    label is a number of one or two digits, followed in Sections B and C
    by a space and the variant when there is one. *)
Definition well_labelled (q : Question) : Prop :=
  section q ∈ ["A"; "B"; "C"] ∧
  ∃ qnum suffix,
    re_number_only qnum = true ∧ suffix ∈ [""; " A"; " B"] ∧
    label q = qnum +:+ suffix ∧ (section q = "A" → suffix = "").

(** The lines at which the scan of Section B or C opens a question. *)
Definition opening_line (l : string) : bool :=
  re_opening_prefix l && negb (is_excluded l).

(** [s[n:]] *)
Fixpoint str_drop (n : nat) (s : string) : string :=
  match n, s with
  | S n', String _ s' => str_drop n' s'
  | _, _ => s
  end.

(** A recorded answer: the mark of a skipped question, or a transcription
    in lower case that holds none of the three command words. *)
Definition answer_recorded (a : Answer) : Prop :=
  qa_answer a = "[SKIPPED]" ∨
  ∃ h, qa_answer a = heard_answer h ∧
       str_in "skip" (qa_answer a) = false ∧
       str_in "repeat" (qa_answer a) = false ∧
       str_in "time" (qa_answer a) = false.

(** A response after which the question is asked again: it holds "repeat"
    or "time" and does not hold "skip". *)
Definition asks_again (h : option string) : bool :=
  negb (str_in "skip" (heard_answer h)) &&
  (str_in "repeat" (heard_answer h) || str_in "time" (heard_answer h)).

Global Arguments is_excluded : simpl never.
Global Arguments str_startswith : simpl never.
Global Arguments str_strip : simpl never.
Global Arguments re_opening_prefix : simpl never.
Global Arguments re_option_line : simpl never.
Global Arguments sort_key : simpl never.
Global Arguments key_lt : simpl never.

(** * Properties *)

(** Case analysis on [x ∈ [a; b; ..]] for a list given by its elements. *)
Ltac elem_cases H :=
  repeat (apply elem_of_cons in H as [->|H]; [try done|]);
  try (by apply elem_of_nil in H).

(** ** The scenarios of the specification *)

Example scenario1 :
  extract_questions ["Section A"; "1 What is 2+2?"; "A 3"; "B 4"; "C 5"; "D 6"]
  = Ok [mkQuestion "A" "1"
          ("What is 2+2?" +:+ String newline "A. 3" +:+ String newline "B. 4"
           +:+ String newline "C. 5" +:+ String newline "D. 6")].
Proof. vm_compute. reflexivity. Qed.

Example scenario2 :
  extract_questions ["Section A"; "1"; "What is 2+2?"; "A 3"; "B 4"]
  = Ok [mkQuestion "A" "1"
          ("What is 2+2?" +:+ String newline "A. 3" +:+ String newline "B. 4")].
Proof. vm_compute. reflexivity. Qed.

Example scenario3 :
  extract_questions
    ["Section B"; "7 A Explain recursion."; "(OR)"; "7 B Explain iteration."]
  = Ok [mkQuestion "B" "7 A" "Explain recursion.";
        mkQuestion "B" "7 B" "Explain iteration."].
Proof. vm_compute. reflexivity. Qed.

Example scenario4 :
  extract_questions ["Section B"; "3 Define a graph."; "Batch: 2023"; "Give an example."]
  = Ok [mkQuestion "B" "3" "Define a graph. Give an example."].
Proof. vm_compute. reflexivity. Qed.

Example sorted_example :
  sorted [mkQuestion "C" "16" "c"; mkQuestion "B" "11 B" "b2";
          mkQuestion "A" "2" "a"; mkQuestion "B" "11 A" "b1";
          mkQuestion "A" "10" "t"; mkQuestion "A" "2" "a'"]
  = [mkQuestion "A" "2" "a"; mkQuestion "A" "2" "a'"; mkQuestion "A" "10" "t";
     mkQuestion "B" "11 A" "b1"; mkQuestion "B" "11 B" "b2";
     mkQuestion "C" "16" "c"].
Proof. vm_compute. reflexivity. Qed.

(** ** Every iteration returns and advances *)

Lemma res_bind_ok {A B} (m : res A) (k : A → res B) b :
  res_bind m k = Ok b ↔ ∃ a, m = Ok a ∧ k a = Ok b.
Proof.
  destruct m; simpl; split; try done; try (by intros (? & ? & ?)).
  - eauto.
  - by intros (? & [= <-] & ?).
Qed.

Lemma collect_options_ok ls options :
  ∃ options' ls',
    collect_options options ls = Ok (options', ls') ∧ ls' `suffix_of` ls.
Proof.
  revert options. induction ls as [|l ls IH]; intros options; simpl.
  - by exists options, [].
  - destruct (re_option_line l) eqn:Hl.
    + destruct l as [|c s]; [done|]. simpl.
      destruct (IH (<[str_upper (String c ""):=str_strip s]> options))
        as (o' & ls' & -> & Hsuf).
      exists o', ls'. split; [done|]. by apply suffix_cons_r.
    + by exists options, (l :: ls).
Qed.

Lemma collect_block_suffix ls ab block :
  (collect_block ab block ls).2 `suffix_of` ls.
Proof.
  revert ab block. induction ls as [|l ls IH]; intros ab block; simpl.
  - done.
  - destruct (_ && _); [|done].
    destruct (_ && _); [|by apply suffix_cons_r].
    destruct (_ && _); by apply suffix_cons_r.
Qed.

Lemma finish_mcq_ok st qnum stem ls :
  ∃ st', finish_mcq st qnum stem ls = Ok st' ∧ pending st' `suffix_of` ls.
Proof.
  unfold finish_mcq.
  destruct (collect_options_ok ls ∅) as (o & ls' & -> & Hsuf). simpl. eauto.
Qed.

Lemma section_a_ok st line tail :
  ∃ st', section_a st line tail = Ok st' ∧ pending st' `suffix_of` tail.
Proof.
  unfold section_a. destruct (re_number_stem line) as [[qnum stem]|].
  { apply finish_mcq_ok. }
  destruct (re_number_only line); [|by eexists].
  destruct tail as [|l tail']; [apply finish_mcq_ok|].
  destruct (re_option_line l); simpl; [apply finish_mcq_ok|].
  destruct (finish_mcq_ok st line (str_strip l) tail') as (st' & -> & Hsuf).
  exists st'. split; [done|]. by apply suffix_cons_r.
Qed.

Lemma section_bc_suffix st sec line tail :
  pending (section_bc st sec line tail) `suffix_of` tail.
Proof.
  unfold section_bc. destruct (re_opening line) as [[[qnum ab] rest]|]; [|done].
  case_bool_decide; [|done].
  pose proof (collect_block_suffix tail ab (if String.eqb rest "" then [] else [rest])).
  destruct (collect_block _ _ _) as [[ab' block] ls']. done.
Qed.

Lemma loop_body_ok st line tail :
  ∃ st', loop_body st line tail = Ok st' ∧ pending st' `suffix_of` tail.
Proof.
  unfold loop_body.
  do 3 (destruct (str_startswith _ _); [by eexists|]).
  destruct (cur_section st) as [sec|]; [|by eexists].
  destruct (is_excluded line); [by eexists|].
  destruct (String.eqb sec "A"); [apply section_a_ok|].
  eexists; split; [done|]. apply section_bc_suffix.
Qed.

Lemma loop_enough_fuel fuel st :
  length (pending st) ≤ fuel → ∃ qs, loop fuel st = Ok qs.
Proof.
  revert st. induction fuel as [|fuel IH]; intros st Hlen.
  - destruct st as [s r [|l p]]; simpl in *; [eauto|lia].
  - destruct st as [s r [|line tail]]; simpl in *; [eauto|].
    destruct (loop_body_ok (mkState s r (line :: tail)) line tail)
      as (st' & -> & Hsuf). simpl.
    apply IH. apply suffix_length in Hsuf. lia.
Qed.

(** The rule of the [while] loop: an invariant of the iterations holds of
    the state in which the loop ends. *)
Lemma loop_invariant (I : State → Prop) :
  (∀ st line tail st',
      I st → pending st = line :: tail → loop_body st line tail = Ok st' →
      I st') →
  ∀ fuel st qs,
    I st → loop fuel st = Ok qs →
    ∃ st', I st' ∧ pending st' = [] ∧ result st' = qs.
Proof.
  intros Hstep fuel. induction fuel as [|fuel IH]; intros st qs HI Hrun.
  - simpl in Hrun. destruct (pending st) eqn:Hp; [|done].
    exists st. naive_solver.
  - simpl in Hrun. destruct (pending st) as [|line tail] eqn:Hp.
    + exists st. naive_solver.
    + apply res_bind_ok in Hrun as (st' & Hbody & Hrun). eauto.
Qed.

(** ** Characters and strings: basic facts *)

Lemma digit_not_space c : is_digit c = true → is_space c = false.
Proof. by destruct c as [[] [] [] [] [] [] [] []]. Qed.

Lemma app_String c s t : String c s +:+ t = String c (s +:+ t).
Proof. done. Qed.

Lemma app_empty_r s : s +:+ "" = s.
Proof. induction s as [|c s IH]; [done|]. by rewrite app_String, IH. Qed.

Lemma str_app_assoc s t u : (s +:+ t) +:+ u = s +:+ (t +:+ u).
Proof. induction s as [|c s IH]; [done|]. by rewrite !app_String, IH. Qed.

Lemma str_lstrip_nonspace c s :
  is_space c = false → str_lstrip (String c s) = String c s.
Proof. intros H. simpl. by rewrite H. Qed.

Lemma str_rstrip_nonspace c s :
  is_space c = false → ∃ s', str_rstrip (String c s) = String c s'.
Proof. intros H. simpl. rewrite H. destruct (str_rstrip s); eauto. Qed.


Lemma re_digits12_inv s qnum r :
  re_digits12 s = Some (qnum, r) →
  s = qnum +:+ r ∧ ∃ c q, qnum = String c q ∧ is_digit c = true.
Proof.
  destruct s as [|a [|b s]]; simpl; [done|..].
  - destruct (is_digit a) eqn:Ha; [|done]. intros [= <- <-]. eauto.
  - destruct (is_digit a) eqn:Ha; [|done].
    destruct (is_digit b); intros [= <- <-]; eauto.
Qed.

Lemma re_number_stem_inv line qnum stem :
  re_number_stem line = Some (qnum, stem) →
  ∃ r, re_digits12 line = Some (qnum, r) ∧
       re_rest_of_line (str_lstrip r) = Some stem.
Proof.
  unfold re_number_stem. destruct (re_digits12 line) as [[q r]|]; [|done].
  simpl. destruct r as [|c r]; [done|]. destruct (is_space c); [|done].
  destruct (re_rest_of_line _) eqn:E; [|done]. simpl. intros [= <- <-]. eauto.
Qed.

Lemma re_number_only_inv line :
  re_number_only line = true → re_digits12 line = Some (line, "").
Proof.
  unfold re_number_only. destruct (re_digits12 line) as [[q [|c r]]|] eqn:E; try done.
  intros _. apply re_digits12_inv in E as [-> _]. by rewrite app_empty_r.
Qed.

Lemma re_opening_inv line qnum ab rest :
  re_opening line = Some (qnum, ab, rest) →
  ∃ r r', re_digits12 line = Some (qnum, r) ∧
          re_variant (str_lstrip r) = (ab, r') ∧
          re_rest_of_line (str_lstrip r') = Some rest.
Proof.
  unfold re_opening. destruct (re_digits12 line) as [[q r]|]; [|done]. simpl.
  destruct (re_variant (str_lstrip r)) as [ab' r'] eqn:Ev.
  destruct (re_rest_of_line _) eqn:E; [|done]. simpl. intros [= <- <- <-]. eauto.
Qed.

(** ** The shape of an iteration *)

Lemma finish_mcq_inv st qnum stem ls st' :
  finish_mcq st qnum stem ls = Ok st' →
  ∃ options ls',
    collect_options ∅ ls = Ok (options, ls') ∧
    st' = mkState (cur_section st)
            (result st ++ [mkQuestion "A" qnum (build_text stem options)]) ls'.
Proof.
  unfold finish_mcq. intros H. apply res_bind_ok in H as ([o ls'] & Ho & H).
  simpl in H. injection H as <-. eauto.
Qed.

Lemma section_a_inv st line tail st' :
  section_a st line tail = Ok st' →
  result st' = result st ∨
  ∃ qnum r stem options,
    re_digits12 line = Some (qnum, r) ∧
    emits st st' (mkQuestion "A" qnum (build_text stem options)).
Proof.
  unfold section_a. destruct (re_number_stem line) as [[qnum stem]|] eqn:E.
  - intros (o & ls' & _ & ->)%finish_mcq_inv. right.
    apply re_number_stem_inv in E as (r & E & _). by exists qnum, r, stem, o.
  - destruct (re_number_only line) eqn:E'; [|intros [= <-]; by left].
    apply re_number_only_inv in E'. intros H. right.
    assert (∃ stem ls, finish_mcq st line stem ls = Ok st') as (stem & ls & H').
    { destruct tail as [|l tail']; [eauto|].
      destruct (re_option_line l); simpl in H; eauto. }
    apply finish_mcq_inv in H' as (o & ls' & _ & ->).
    by exists line, "", stem, o.
Qed.

Lemma section_bc_inv st sec line tail :
  result (section_bc st sec line tail) = result st ∨
  ∃ qnum ab rest ab' block ls',
    sec ∈ ["B"; "C"] ∧
    re_opening line = Some (qnum, ab, rest) ∧
    collect_block ab (if String.eqb rest "" then [] else [rest]) tail
      = (ab', block, ls') ∧
    emits st (section_bc st sec line tail)
      (mkQuestion sec (str_strip (qnum +:+ " " +:+ ab')) (str_join " " block)).
Proof.
  unfold section_bc, emits.
  destruct (re_opening line) as [[[qnum ab] rest]|] eqn:E; [|by left].
  case_bool_decide as Hsec; [|by left]. right.
  destruct (collect_block _ _ _) as [[ab' block] ls'] eqn:Eb.
  by exists qnum, ab, rest, ab', block, ls'.
Qed.

(** After the three header tests: the dispatch on [section]. *)
Lemma loop_body_not_header st line tail :
  is_header line = false →
  loop_body st line tail =
    match cur_section st with
    | None => Ok (mkState None (result st) tail)
    | Some sec =>
        if is_excluded line then Ok (mkState (Some sec) (result st) tail)
        else if String.eqb sec "A" then section_a st line tail
        else Ok (section_bc st sec line tail)
    end.
Proof.
  unfold loop_body, is_header. intros Hh.
  apply orb_false_elim in Hh as [Hh ->]. apply orb_false_elim in Hh as [-> ->].
  by destruct (cur_section st).
Qed.

Lemma loop_body_inv st line tail st' :
  loop_body st line tail = Ok st' →
  result st' = result st ∨
  ∃ sec, cur_section st = Some sec ∧ is_header line = false ∧
         is_excluded line = false ∧
         ((sec = "A" ∧ section_a st line tail = Ok st') ∨
          (sec ≠ "A" ∧ st' = section_bc st sec line tail)).
Proof.
  unfold loop_body, is_header.
  do 3 (destruct (str_startswith _ _); [intros [= <-]; by left|]).
  destruct (cur_section st) as [sec|]; [|intros [= <-]; by left].
  destruct (is_excluded line); [intros [= <-]; by left|].
  destruct (String.eqb_spec sec "A") as [->|Hne]; intros H; right.
  - exists "A". repeat split; try done. by left.
  - injection H as <-. exists sec. repeat split; try done. by right.
Qed.

(** ** C8: totality *)

(** C8. [extract_questions] is total: every iteration of the main loop
    returns normally and moves the cursor forward (the lines still to be
    read are a proper suffix of those before it); no input makes
    [extract_questions] raise or loop for ever; and a line that is no
    header and matches no opening pattern of the current section is
    skipped: the cursor moves by one and nothing is emitted. *)
Theorem extract_questions_total :
  (∀ st line tail, ∃ st' consumed,
      loop_body st line tail = Ok st' ∧
      consumed ≠ [] ∧ line :: tail = consumed ++ pending st') ∧
  (∀ raw_lines, ∃ qs, extract_questions raw_lines = Ok qs) ∧
  (∀ st sec line tail,
      cur_section st = Some sec → is_header line = false →
      (if String.eqb sec "A"
       then re_number_stem line = None ∧ re_number_only line = false
       else re_opening line = None) →
      loop_body st line tail = Ok (mkState (Some sec) (result st) tail)).
Proof.
  split; [|split].
  - intros st line tail.
    destruct (loop_body_ok st line tail) as (st' & Hbody & [k Hk]).
    exists st', (line :: k). split; [done|]. split; [done|]. by rewrite Hk.
  - intros raw_lines. unfold extract_questions. by apply loop_enough_fuel.
  - intros st sec line tail Hsec Hh Hno.
    rewrite loop_body_not_header, Hsec by done.
    destruct (is_excluded line); [done|].
    destruct (String.eqb sec "A").
    + destruct Hno as [Hm Hn]. unfold section_a. by rewrite Hm, Hn, Hsec.
    + unfold section_bc. by rewrite Hno, Hsec.
Qed.

Lemma extract_questions_total_witness :
  loop_body (mkState (Some "A") [] []) "Choose the best answer" ["1 What?"]
  = Ok (mkState (Some "A") [] ["1 What?"]) ∧
  loop_body (mkState (Some "C") [] []) "Draw a diagram." []
  = Ok (mkState (Some "C") [] []).
Proof.
  split.
  - apply (proj2 (proj2 extract_questions_total)
             (mkState (Some "A") [] []) "A" "Choose the best answer" ["1 What?"]);
      [reflexivity|vm_compute; reflexivity|vm_compute; done].
  - apply (proj2 (proj2 extract_questions_total)
             (mkState (Some "C") [] []) "C" "Draw a diagram." []);
      [reflexivity|vm_compute; reflexivity|vm_compute; reflexivity].
Defined.

(** ** C1: labels and texts of the emitted questions *)






(** ** C7: the Line Normalizer *)

Lemma str_lstrip_length s : String.length (str_lstrip s) ≤ String.length s.
Proof.
  induction s as [|c s IH]; simpl; [done|].
  destruct (is_space c); simpl; lia.
Qed.

Lemma str_rstrip_length s : String.length (str_rstrip s) ≤ String.length s.
Proof.
  induction s as [|c s IH]; simpl; [done|].
  destruct (str_rstrip s); [destruct (is_space c)|]; simpl in *; lia.
Qed.

Lemma stripped_first_nonspace c s :
  str_strip (String c s) = String c s → is_space c = false.
Proof.
  intros H. destruct (is_space c) eqn:Hc; [|done].
  apply (f_equal String.length) in H. unfold str_strip in H. simpl in H.
  rewrite Hc in H.
  pose proof (str_rstrip_length (str_lstrip s)).
  pose proof (str_lstrip_length s). lia.
Qed.

Lemma clean_line_nonempty l : str_strip l = l → l ≠ "" → clean_line l ≠ "".
Proof.
  intros Hs Hne. destruct l as [|c s]; [done|].
  unfold clean_line. rewrite Hs. simpl.
  by rewrite (stripped_first_nonspace c s Hs).
Qed.

Lemma adjacent_distinct_cons x l :
  head l ≠ Some x → adjacent_distinct l → adjacent_distinct (x :: l).
Proof.
  intros Hhd Hl [|i] a b; simpl.
  - intros [= <-] Hb. destruct l; simplify_eq/=. congruence.
  - apply Hl.
Qed.

Lemma normalize_from_no_empty prev raw_lines : "" ∉ normalize_from prev raw_lines.
Proof.
  revert prev. induction raw_lines as [|l raw IH]; intros prev; simpl.
  - apply not_elem_of_nil.
  - destruct (String.eqb_spec (clean_line l) ""); simpl; [apply IH|].
    case_bool_decide; simpl; [apply IH|].
    apply not_elem_of_cons. split; [done|apply IH].
Qed.

Lemma normalize_from_adjacent prev raw_lines :
  Forall (λ l, clean_line l ≠ "") raw_lines →
  adjacent_distinct (normalize_from prev raw_lines) ∧
  ∀ x, head (normalize_from prev raw_lines) = Some x → Some x ≠ prev.
Proof.
  intros Hall. revert prev.
  induction Hall as [|l raw Hl Hall IH]; intros prev; simpl.
  - split; [by intros i x y|done].
  - destruct (IH (Some (clean_line l))) as [IH1 IH2].
    destruct (String.eqb_spec (clean_line l) ""); [done|]. simpl.
    case_bool_decide as Hprev; simpl.
    + split; [done|]. intros x Hx. rewrite <- Hprev. by apply IH2.
    + split; [|by intros x [= <-]].
      apply adjacent_distinct_cons; [|done].
      intros Hhd. by apply IH2 in Hhd.
Qed.

(** C7. When every raw line is stripped and non-empty, as [get_all_text]
    delivers them, the normalized lines contain no empty string and no two
    equal neighbours. *)
Theorem normalize_invariant raw_lines :
  Forall (λ l, str_strip l = l ∧ l ≠ "") raw_lines →
  ("" ∉ normalize raw_lines) ∧ adjacent_distinct (normalize raw_lines).
Proof.
  intros Hall. split; [apply normalize_from_no_empty|].
  apply normalize_from_adjacent.
  eapply Forall_impl; [exact Hall|]. intros l [Hs Hne]. by apply clean_line_nonempty.
Qed.

Lemma normalize_invariant_witness :
  ("" ∉ normalize ["Section  A"; "1 What is 2+2?"; "1   What is 2+2?"; "A 3"]) ∧
  adjacent_distinct
    (normalize ["Section  A"; "1 What is 2+2?"; "1   What is 2+2?"; "A 3"]).
Proof.
  apply normalize_invariant.
  repeat (apply Forall_cons; split; [split; [vm_compute; reflexivity|done]|]).
  apply Forall_nil_2.
Defined.

(** The hypothesis matters: a raw line of whitespace resets [prev], and two
    equal lines around it are both kept. *)
Example normalize_blank_between :
  normalize ["a"; "  "; "a"] = ["a"; "a"].
Proof. vm_compute. reflexivity. Qed.

(** ** C9: no header, no question *)

Lemma normalize_from_clean prev raw_lines x :
  x ∈ normalize_from prev raw_lines → ∃ l, l ∈ raw_lines ∧ x = clean_line l.
Proof.
  revert prev. induction raw_lines as [|l raw IH]; intros prev; simpl.
  - by intros ?%elem_of_nil.
  - intros [Hx|Hx]%elem_of_app.
    + destruct (_ && _); [|by apply elem_of_nil in Hx].
      apply list_elem_of_singleton in Hx as ->. exists l. split; [left|done].
    + apply IH in Hx as (l' & Hl' & ->). exists l'. split; [by right|done].
Qed.

Lemma loop_body_no_section st line tail :
  cur_section st = None → is_header line = false →
  loop_body st line tail = Ok (mkState None (result st) tail).
Proof. intros Hsec Hh. by rewrite loop_body_not_header, Hsec. Qed.

(** C9 (amended). If no line, in the normalized form in which the scan
    reads it (trimmed, every run of whitespace one space), starts with
    "section a", "section b" or "section c" once lower-cased,
    [extract_questions] returns the empty list.  (On the lines as they are
    given the claim fails, see the counterexample.) *)
Theorem no_header_no_questions raw_lines :
  Forall (λ l, is_header (clean_line l) = false) raw_lines →
  extract_questions raw_lines = Ok [].
Proof.
  intros Hall.
  unfold extract_questions.
  destruct (loop_enough_fuel (length (normalize raw_lines))
              (mkState None [] (normalize raw_lines))) as [qs Hrun]; [done|].
  rewrite Hrun. f_equal.
  apply (loop_invariant
           (λ st, cur_section st = None ∧ result st = [] ∧
                  Forall (λ l, is_header l = false) (pending st)))
    in Hrun as (st' & (_ & Hres & _) & _ & <-); [done|..].
  - intros st line tail st' (Hsec & Hres & Hp) Hpend Hbody.
    rewrite Hpend in Hp. apply Forall_cons in Hp as [Hline Htail].
    rewrite loop_body_no_section in Hbody by done. by injection Hbody as <-.
  - simpl. split; [done|]. split; [done|].
    apply Forall_forall. intros x (l & Hl & ->)%normalize_from_clean.
    by eapply Forall_forall in Hall.
Qed.

Lemma no_header_no_questions_witness :
  extract_questions ["Answer all questions"; "1 What is 2+2?"; "A 3"; "B 4"]
  = Ok [].
Proof.
  apply no_header_no_questions.
  repeat (apply Forall_cons; split; [vm_compute; reflexivity|]).
  apply Forall_nil_2.
Defined.

(** C9, as stated on the input lines, fails: the scan tests the normalized
    lines, and the normalizer turns the line "Section  A", with two spaces,
    which is no header by its own lower-case form, into the header
    "Section A". *)
Lemma header_after_normalization :
  is_header "Section  A" = false ∧ is_header "1 What is 2+2?" = false ∧
  clean_line "Section  A" = "Section A" ∧
  extract_questions ["Section  A"; "1 What is 2+2?"]
  = Ok [mkQuestion "A" "1" "What is 2+2?"].
Proof. vm_compute. done. Qed.

(** ** C2: where the Noise Filter applies in Section A *)

Lemma str_startswith_cons a p b s :
  str_startswith (String a p) (String b s) = Ascii.eqb a b && str_startswith p s.
Proof. done. Qed.

Lemma lower_digit c : is_digit c = true → lower_char c = c.
Proof. by destruct c as [[] [] [] [] [] [] [] []]. Qed.

(** A line that starts with a digit is not a section header. *)
Lemma digit_not_header line qnum r :
  re_digits12 line = Some (qnum, r) → is_header line = false.
Proof.
  intros (-> & c & q & -> & Hc)%re_digits12_inv.
  unfold is_header, str_lower. rewrite app_String. simpl str_map.
  rewrite !str_startswith_cons, lower_digit by done.
  by destruct c as [[] [] [] [] [] [] [] []].
Qed.

Lemma loop_body_excluded st sec line tail :
  cur_section st = Some sec → is_header line = false →
  is_excluded line = true →
  loop_body st line tail = Ok (mkState (Some sec) (result st) tail).
Proof. intros Hsec Hh Hex. by rewrite loop_body_not_header, Hsec, Hex. Qed.

Lemma loop_body_section_a st line tail :
  cur_section st = Some "A" → is_header line = false →
  is_excluded line = false →
  loop_body st line tail = section_a st line tail.
Proof. intros Hsec Hh Hex. by rewrite loop_body_not_header, Hsec, Hex. Qed.

Lemma str_startswith_length p s :
  str_startswith p s = true → String.length p ≤ String.length s.
Proof.
  revert s. induction p as [|a p IH]; intros [|b s]; simpl; try done; [lia|].
  rewrite str_startswith_cons. intros [_ H]%andb_prop. apply IH in H. lia.
Qed.

Lemma str_in_length key s :
  str_in key s = true → String.length key ≤ String.length s.
Proof.
  induction s as [|c s IH]; simpl.
  - rewrite orb_false_r. apply str_startswith_length.
  - intros [H|H]%orb_prop; [by apply str_startswith_length in H|].
    apply IH in H. lia.
Qed.

Lemma str_map_length f s : String.length (str_map f s) = String.length s.
Proof. induction s; simpl; congruence. Qed.

(** Every entry of the blocklist has five characters or more. *)
Lemma is_excluded_short s : String.length s < 5 → is_excluded s = false.
Proof.
  intros Hlen. unfold is_excluded, EXCLUDE_SUBSTRS. simpl existsb.
  repeat match goal with
  | |- context [str_in ?k ?l] =>
      let E := fresh in
      destruct (str_in k l) eqn:E;
      [apply str_in_length in E; unfold str_lower in E;
       rewrite str_map_length in E; simpl in E; lia|]
  end.
  done.
Qed.

Lemma re_number_only_length line :
  re_number_only line = true → String.length line ≤ 2.
Proof.
  destruct line as [|a [|b [|c s]]]; simpl; try lia.
  unfold re_number_only. simpl. by repeat case_match.
Qed.

Lemma re_digits12_number_only s qnum r :
  re_digits12 s = Some (qnum, r) → re_number_only qnum = true.
Proof.
  unfold re_number_only. destruct s as [|a [|b s]]; simpl; [done|..].
  - destruct (is_digit a) eqn:Ha; [|done]. intros [= <- <-]. simpl. by rewrite Ha.
  - destruct (is_digit a) eqn:Ha; [|done].
    destruct (is_digit b) eqn:Hb; intros [= <- <-]; simpl; by rewrite Ha, ?Hb.
Qed.

(** C2 (amended). In Section A the Noise Filter gates the line at the
    cursor of the main loop: an opening line "number, whitespace, stem" is
    dropped without a question when it matches the filter, and parsed with
    its stem verbatim when it does not.  The filter is not applied to the
    lines read inside a question: after the same number alone on a line, the
    next line [l], if it is not an option line, becomes the stem whether or
    not it matches the filter. *)
Theorem noise_filter_in_section_a st line qnum stem l tail :
  cur_section st = Some "A" →
  re_number_stem line = Some (qnum, stem) →
  re_option_line l = false →
  loop_body st line tail =
    (if is_excluded line then Ok (mkState (Some "A") (result st) tail)
     else finish_mcq st qnum stem tail) ∧
  loop_body st qnum (l :: tail) = finish_mcq st qnum (str_strip l) tail.
Proof.
  intros Hsec Hm Hl.
  pose proof Hm as (r & Hd & _)%re_number_stem_inv.
  split.
  - pose proof (digit_not_header _ _ _ Hd) as Hh.
    destruct (is_excluded line) eqn:Hex.
    + by apply loop_body_excluded.
    + rewrite loop_body_section_a by done. unfold section_a. by rewrite Hm.
  - apply re_digits12_number_only in Hd as Hn.
    pose proof (re_number_only_inv _ Hn) as Hd'.
    rewrite loop_body_section_a; [|done|by eapply digit_not_header|].
    + unfold section_a, re_number_stem. rewrite Hd'. simpl. by rewrite Hn, Hl.
    + apply is_excluded_short. apply re_number_only_length in Hn. lia.
Qed.

Lemma noise_filter_in_section_a_witness :
  loop_body (mkState (Some "A") [] []) "3 Which college is it?" ["A Ours"]
  = Ok (mkState (Some "A") [] ["A Ours"]) ∧
  loop_body (mkState (Some "A") [] []) "3" ["Which college is it?"; "A Ours"]
  = Ok (mkState (Some "A")
          [mkQuestion "A" "3"
             ("Which college is it?" +:+ String newline "A. Ours")] []).
Proof.
  apply (noise_filter_in_section_a (mkState (Some "A") [] [])
           "3 Which college is it?" "3" "Which college is it?"
           "Which college is it?" ["A Ours"]);
    vm_compute; reflexivity.
Defined.

(** C2, as stated, fails: this line of Section A has the opening shape
    "number, whitespace, stem", contains the blocklist entry "college", and
    yields no question. *)
Lemma section_a_opening_filtered :
  clean_line "3 Which college is it?" = "3 Which college is it?" ∧
  re_number_stem "3 Which college is it?" = Some ("3", "Which college is it?") ∧
  extract_questions ["Section A"; "3 Which college is it?"; "A Ours"; "B Theirs"]
  = Ok [].
Proof. vm_compute. done. Qed.

(** What the filter leaves alone in Section A: the stem line after a bare
    number. *)
Example section_a_stem_not_filtered :
  extract_questions ["Section A"; "3"; "Which college is it?"; "A Ours"]
  = Ok [mkQuestion "A" "3"
          ("Which college is it?" +:+ String newline "A. Ours")].
Proof. vm_compute. reflexivity. Qed.

(** ** C3: the deferred variant label *)




(** ** C10: a capital A or B after the number of a Section B/C opening *)

Lemma loop_body_section_bc st sec line tail :
  cur_section st = Some sec → sec ≠ "A" → is_header line = false →
  is_excluded line = false →
  loop_body st line tail = Ok (section_bc st sec line tail).
Proof.
  intros Hsec Hne Hh Hex. rewrite loop_body_not_header, Hsec, Hex by done.
  by destruct (String.eqb_spec sec "A").
Qed.

(** Once the body is not empty, the block loop only appends to it. *)
Lemma collect_block_nonempty ls ab block :
  block ≠ [] →
  ∃ extra ls', collect_block ab block ls = (ab, block ++ extra, ls').
Proof.
  revert block. induction ls as [|l ls IH]; intros block Hne; simpl.
  - exists [], []. by rewrite app_nil_r.
  - destruct (_ && _); [|exists [], (l :: ls); by rewrite app_nil_r].
    destruct (_ && _); [|by apply IH].
    rewrite (bool_decide_eq_false_2 (block = [])) by done.
    rewrite andb_false_r.
    destruct (IH (block ++ [l])) as (extra & ls' & ->).
    { by destruct block. }
    exists (l :: extra), ls'. by rewrite <- app_assoc.
Qed.

Lemma str_lstrip_spaces ws s :
  all_space ws = true → str_lstrip (ws +:+ s) = str_lstrip s.
Proof.
  induction ws as [|c ws IH]; [done|]. rewrite app_String. simpl.
  intros [-> H]%andb_prop. by apply IH.
Qed.

Lemma re_digits12_app qnum r :
  re_number_only qnum = true →
  (∀ c r', r = String c r' → is_digit c = false) →
  re_digits12 (qnum +:+ r) = Some (qnum, r).
Proof.
  intros Hn Hr. unfold re_number_only in Hn.
  destruct qnum as [|a [|b [|c q]]]; simpl in Hn; try done.
  - destruct (is_digit a) eqn:Ha; [|done]. rewrite !app_String. simpl.
    destruct r as [|c r']; simpl; rewrite Ha; [done|]. by rewrite (Hr c r').
  - destruct (is_digit a) eqn:Ha; [|done]. rewrite !app_String. simpl.
    rewrite Ha. by destruct (is_digit b).
  - destruct (is_digit a); [|done]. by destruct (is_digit b).
Qed.

Lemma str_rstrip_app s c :
  is_space c = false → str_rstrip (s +:+ String c "") = s +:+ String c "".
Proof.
  intros Hc. induction s as [|a s IH]; simpl.
  - by rewrite Hc.
  - rewrite app_String. simpl. rewrite IH. by destruct s.
Qed.

Lemma label_with_variant qnum c :
  re_number_only qnum = true → c ∈ ["A"; "B"]%char →
  str_strip (qnum +:+ " " +:+ String c "") = qnum +:+ " " +:+ String c "".
Proof.
  intros Hn Hc.
  pose proof (re_number_only_inv _ Hn) as (_ & a & q & -> & Ha)%re_digits12_inv.
  unfold str_strip. rewrite app_String.
  rewrite str_lstrip_nonspace by by apply digit_not_space.
  rewrite <- app_String.
  replace (String a q +:+ " " +:+ String c "")
    with ((String a q +:+ " ") +:+ String c "") by by rewrite str_app_assoc.
  apply str_rstrip_app.
  clear -Hc. elem_cases Hc.
Qed.

(** C10. In Section B or C, when the number of an opening line is followed,
    after optional whitespace [ws], by a capital A or B that begins a word
    ([c] followed by [w]), the letter is taken as the variant: the label of
    the emitted question is the number, a space and the letter, and its body
    starts with what follows the letter. *)
Theorem variant_letter_consumed st sec qnum ws c w rest tail :
  cur_section st = Some sec → sec ∈ ["B"; "C"] →
  re_number_only qnum = true → all_space ws = true →
  c ∈ ["A"; "B"]%char →
  re_rest_of_line (str_lstrip w) = Some rest → rest ≠ "" →
  is_excluded (qnum +:+ ws +:+ String c w) = false →
  ∃ extra ls',
    loop_body st (qnum +:+ ws +:+ String c w) tail =
      Ok (mkState (Some sec)
            (result st ++
               [mkQuestion sec (qnum +:+ " " +:+ String c "")
                  (str_join " " (rest :: extra))])
            ls') ∧
    (tail = [] → extra = [] ∧ ls' = []).
Proof.
  intros Hsec Hbc Hn Hws Hc Hrest Hne Hex.
  assert (is_space c = false ∧ is_digit c = false) as [Hcs Hcd].
  { clear -Hc. elem_cases Hc. }
  assert (re_digits12 (qnum +:+ ws +:+ String c w)
          = Some (qnum, ws +:+ String c w)) as Hd.
  { apply re_digits12_app; [done|]. intros d r' Hr.
    destruct ws as [|e ws]; simpl in Hr.
    - by injection Hr as <- <-.
    - rewrite app_String in Hr. injection Hr as <- <-.
      apply andb_prop in Hws as [He _].
      destruct (is_digit e) eqn:Hed; [|done].
      apply digit_not_space in Hed. congruence. }
  assert (re_opening (qnum +:+ ws +:+ String c w)
          = Some (qnum, String c "", rest)) as Ho.
  { unfold re_opening. rewrite Hd. simpl.
    rewrite str_lstrip_spaces, str_lstrip_nonspace by done.
    unfold re_variant. rewrite (bool_decide_eq_true_2 _ Hc).
    by rewrite Hrest. }
  rewrite (loop_body_section_bc st sec); try done.
  - unfold section_bc. rewrite Ho, (bool_decide_eq_true_2 _ Hbc).
    destruct (String.eqb_spec rest ""); [done|].
    destruct (collect_block_nonempty tail (String c "") [rest])
      as (extra & ls' & Hb); [done|].
    rewrite Hb, Hsec, label_with_variant by done.
    exists extra, ls'. split; [done|].
    intros ->. simpl in Hb. by injection Hb as <- <-.
  - intros ->. clear -Hbc.
    repeat (apply elem_of_cons in Hbc as [?|Hbc]; [done|]).
    by apply elem_of_nil in Hbc.
  - by eapply digit_not_header.
Qed.

Lemma variant_letter_consumed_witness :
  loop_body (mkState (Some "B") [] []) "12 Apples are red" []
  = Ok (mkState (Some "B") [mkQuestion "B" "12 A" "pples are red"] []).
Proof.
  assert ("B" ∈ ["B"; "C"]) as Hsec by apply list_elem_of_here.
  assert ("A"%char ∈ ["A"; "B"]%char) as Hc by apply list_elem_of_here.
  assert ("pples are red" ≠ "") as Hne by done.
  destruct (variant_letter_consumed (mkState (Some "B") [] []) "B" "12" " "
              "A"%char "pples are red" "pples are red" []
              eq_refl Hsec eq_refl eq_refl Hc eq_refl Hne eq_refl)
    as (extra & ls' & H & Hnil).
  destruct (Hnil eq_refl) as [-> ->]. exact H.
Defined.

(** The example of the claim, end to end. *)
Example apples_are_red :
  extract_questions ["Section B"; "12 Apples are red"]
  = Ok [mkQuestion "B" "12 A" "pples are red"].
Proof. vm_compute. reflexivity. Qed.

(** ** C4: the text of a Section A question *)

Lemma collect_options_inv ls options options' ls' :
  collect_options options ls = Ok (options', ls') →
  ∃ opts,
    ls = opts ++ ls' ∧ Forall (λ l, re_option_line l = true) opts ∧
    (∀ l ls'', ls' = l :: ls'' → re_option_line l = false) ∧
    options' = foldl (λ m l, <[option_letter l := option_text l]> m) options opts.
Proof.
  revert options. induction ls as [|l ls IH]; intros options; simpl.
  - intros [= <- <-]. exists []. by repeat split.
  - destruct (re_option_line l) eqn:Hl.
    + destruct l as [|c s]; [done|]. simpl.
      intros (opts & -> & Hall & Hnext & ->)%IH.
      exists (String c s :: opts). repeat split; try done. by constructor.
    + intros [= <- <-]. exists []. repeat split; try done.
      by intros l' ls'' [= <- <-].
Qed.

Lemma lookup_collected (options : gmap string string) opts letter :
  foldl (λ m l, <[option_letter l := option_text l]> m) options opts !! letter
  = match last_option letter opts with
    | Some v => Some v
    | None => options !! letter
    end.
Proof.
  revert options. induction opts as [|l opts IH]; intros options; simpl; [done|].
  rewrite IH. destruct (last_option letter opts); [done|].
  destruct (String.eqb_spec (option_letter l) letter) as [->|Hne].
  - by rewrite lookup_insert_eq.
  - by rewrite lookup_insert_ne.
Qed.

Lemma build_text_collected stem opts :
  build_text stem
    (foldl (λ m l, <[option_letter l := option_text l]> m) ∅ opts)
  = stem +:+ option_lines opts.
Proof.
  unfold build_text, option_lines, option_line_of. simpl.
  rewrite !lookup_collected, !lookup_empty.
  repeat match goal with
         | |- context [last_option ?L opts] => destruct (last_option L opts)
         end;
    by rewrite ?str_app_assoc, ?app_empty_r.
Qed.

Lemma last_option_Some letter opts v :
  last_option letter opts = Some v →
  ∃ l, l ∈ opts ∧ option_letter l = letter ∧ v = option_text l.
Proof.
  induction opts as [|l opts IH]; simpl; [done|].
  destruct (last_option letter opts) as [v'|].
  - intros [= <-]. destruct IH as (l' & ? & ? & ?); [done|].
    exists l'. split; [by right|done].
  - destruct (String.eqb_spec (option_letter l) letter); [|done].
    intros [= <-]. exists l. split; [left|done].
Qed.

Lemma last_option_None letter opts :
  last_option letter opts = None ↔ ∀ l, l ∈ opts → option_letter l ≠ letter.
Proof.
  induction opts as [|l opts IH]; simpl.
  - split; [|done]. by intros _ l ?%elem_of_nil.
  - destruct (last_option letter opts) as [v'|].
    + split; [done|]. intros H. exfalso.
      assert (Some v' = None) as [=]. apply IH. intros l' Hl'. apply H. by right.
    + destruct (String.eqb_spec (option_letter l) letter) as [He|Hne].
      * split; [done|]. intros H. exfalso. by apply (H l); [left|].
      * split; [|done]. intros _ l' [->|Hl']%elem_of_cons; [done|].
        by apply IH.
Qed.

Lemma last_option_NoDup opts l :
  NoDup (option_letter <$> opts) → l ∈ opts →
  last_option (option_letter l) opts = Some (option_text l).
Proof.
  induction opts as [|l0 opts IH]; simpl.
  - by intros _ ?%elem_of_nil.
  - intros [Hnotin Hnd]%NoDup_cons [->|Hl]%elem_of_cons.
    + assert (last_option (option_letter l0) opts = None) as ->.
      { apply last_option_None. intros l' Hl' He. apply Hnotin.
        rewrite <- He. by apply list_elem_of_fmap_2. }
      by rewrite String.eqb_refl.
    + by rewrite IH.
Qed.

Lemma last_option_perm letter opts opts' :
  opts ≡ₚ opts' → NoDup (option_letter <$> opts) →
  last_option letter opts = last_option letter opts'.
Proof.
  intros Hperm Hnd.
  assert (NoDup (option_letter <$> opts')) as Hnd' by by rewrite <- Hperm.
  destruct (last_option letter opts) as [v|] eqn:E.
  - apply last_option_Some in E as (l & Hl & <- & ->).
    symmetry. apply last_option_NoDup; [done|]. by rewrite <- Hperm.
  - symmetry. apply last_option_None. intros l Hl.
    rewrite <- Hperm in Hl. revert l Hl. by apply last_option_None.
Qed.

Lemma option_lines_perm opts opts' :
  opts ≡ₚ opts' → NoDup (option_letter <$> opts) →
  option_lines opts = option_lines opts'.
Proof.
  intros Hperm Hnd. unfold option_lines, option_line_of.
  by rewrite !(last_option_perm _ opts opts').
Qed.

Lemma finish_mcq_text st qnum stem ls st' q :
  finish_mcq st qnum stem ls = Ok st' → emits st st' q →
  ∃ opts,
    ls = opts ++ pending st' ∧
    Forall (λ l, re_option_line l = true) opts ∧
    (∀ l ls', pending st' = l :: ls' → re_option_line l = false) ∧
    q = mkQuestion "A" qnum (stem +:+ option_lines opts).
Proof.
  intros (o & ls' & Ho & ->)%finish_mcq_inv Hq.
  apply collect_options_inv in Ho as (opts & -> & Hall & Hnext & ->).
  unfold emits in Hq. simpl in Hq.
  apply app_inv_head in Hq. injection Hq as <-.
  exists opts. by rewrite build_text_collected.
Qed.

(** C4. Every question of Section A is emitted by an iteration that opens
    it at [line] (label [qnum], stem [stem]) and then reads the option lines
    [opts], all the lines matching the option pattern that follow the stem.
    Its text is the stem followed, for each of the letters A, B, C, D that
    some option line carries, in this order, by a line "letter, dot, space,
    text" holding the text of the last option line with that letter.  When
    the letters of the option lines are distinct the text does not depend
    on the order of these lines. *)
Theorem section_a_text st line rest st' q :
  cur_section st = Some "A" →
  loop_body st line rest = Ok st' →
  emits st st' q →
  ∃ qnum stem after opts,
    mcq_opening line rest qnum stem after ∧
    after = opts ++ pending st' ∧
    Forall (λ l, re_option_line l = true) opts ∧
    (∀ l ls, pending st' = l :: ls → re_option_line l = false) ∧
    q = mkQuestion "A" qnum (stem +:+ option_lines opts) ∧
    (∀ opts', opts ≡ₚ opts' → NoDup (option_letter <$> opts) →
              text q = stem +:+ option_lines opts').
Proof.
  intros Hsec Hbody Hq.
  assert (∀ l : list Question, l ≠ l ++ [q]) as Hneq.
  { intros l H%(f_equal length). rewrite length_app in H. simpl in H. lia. }
  assert (section_a st line rest = Ok st') as Ha.
  { apply loop_body_inv in Hbody
      as [Hsame|(sec & Hsec' & _ & _ & [[_ Ha]|[Hne _]])]; [|done|congruence].
    unfold emits in Hq. rewrite Hsame in Hq. by apply Hneq in Hq. }
  clear Hbody. unfold section_a in Ha.
  assert (∃ qnum stem after,
            mcq_opening line rest qnum stem after ∧
            finish_mcq st qnum stem after = Ok st')
    as (qnum & stem & after & Hopen & Hfin).
  { destruct (re_number_stem line) as [[qnum stem]|] eqn:Hm.
    { exists qnum, stem, rest. split; [by constructor|done]. }
    destruct (re_number_only line) eqn:Hn.
    2:{ injection Ha as <-. unfold emits in Hq. simpl in Hq. by apply Hneq in Hq. }
    destruct rest as [|l rest'].
    { exists line, "", []. split; [by apply open_number_alone|done]. }
    destruct (re_option_line l) eqn:Hl; simpl in Ha.
    - exists line, "", (l :: rest'). split; [|done].
      apply open_number_alone; [done|]. by intros ? ? [= <- <-].
    - exists line, (str_strip l), rest'. split; [|done].
      by eapply open_number_then_stem. }
  destruct (finish_mcq_text _ _ _ _ _ _ Hfin Hq)
    as (opts & Hafter & Hall & Hnext & ->).
  exists qnum, stem, after, opts. repeat split; try done.
  intros opts' Hperm Hnd. simpl. f_equal. by apply option_lines_perm.
Qed.

Lemma section_a_text_witness :
  ∃ qnum stem after opts,
    mcq_opening "1 What is 2+2?" ["B 4"; "a 3"; "B four"; "2 Next"]
      qnum stem after ∧
    after = opts ++ ["2 Next"] ∧
    Forall (λ l, re_option_line l = true) opts ∧
    (∀ l ls, ["2 Next"] = l :: ls → re_option_line l = false) ∧
    mkQuestion "A" "1"
      ("What is 2+2?" +:+ String newline "A. 3" +:+ String newline "B. four")
    = mkQuestion "A" qnum (stem +:+ option_lines opts) ∧
    (∀ opts', opts ≡ₚ opts' → NoDup (option_letter <$> opts) →
              "What is 2+2?" +:+ String newline "A. 3" +:+ String newline "B. four"
              = stem +:+ option_lines opts').
Proof.
  apply (section_a_text (mkState (Some "A") [] [])
           "1 What is 2+2?" ["B 4"; "a 3"; "B four"; "2 Next"]
           (mkState (Some "A")
              [mkQuestion "A" "1"
                 ("What is 2+2?" +:+ String newline "A. 3"
                  +:+ String newline "B. four")]
              ["2 Next"])).
  - reflexivity.
  - vm_compute. reflexivity.
  - reflexivity.
Defined.

(** ** C5: the body of a Section B/C question *)

Lemma str_startswith_app key s post :
  str_startswith key s = true → str_startswith key (s +:+ post) = true.
Proof.
  revert s. induction key as [|a key IH]; intros [|b s]; try done.
  rewrite app_String, !str_startswith_cons.
  intros [-> H]%andb_prop. by apply IH.
Qed.

Lemma str_in_app_r key s post :
  str_in key s = true → str_in key (s +:+ post) = true.
Proof.
  induction s as [|c s IH]; simpl.
  - rewrite orb_false_r. intros H.
    apply (str_startswith_app _ _ post) in H.
    change ("" +:+ post) with post in *.
    destruct post; simpl; by rewrite H.
  - intros [H|H]%orb_prop.
    + apply (str_startswith_app _ _ post) in H.
      rewrite app_String in H. by rewrite H.
    + rewrite (IH H). apply orb_true_r.
Qed.

Lemma str_in_app_l key pre s :
  str_in key s = true → str_in key (pre +:+ s) = true.
Proof.
  intros H. induction pre as [|c pre IH]; [done|].
  rewrite app_String. simpl. rewrite IH. apply orb_true_r.
Qed.

Lemma str_lower_app s t : str_lower (s +:+ t) = str_lower s +:+ str_lower t.
Proof.
  unfold str_lower. induction s as [|c s IH]; [done|].
  rewrite app_String. simpl. by rewrite IH.
Qed.

(** A line with an excluded part is excluded. *)
Lemma is_excluded_part pre s post :
  is_excluded s = true → is_excluded (pre +:+ s +:+ post) = true.
Proof.
  unfold is_excluded. rewrite !existsb_exists.
  intros (key & Hkey & Hin). exists key. split; [done|].
  rewrite !str_lower_app. by apply str_in_app_l, str_in_app_r.
Qed.

Lemma str_lstrip_split s : ∃ ws, s = ws +:+ str_lstrip s.
Proof.
  induction s as [|c s [ws IH]]; simpl; [by exists ""|].
  destruct (is_space c).
  - exists (String c ws). by rewrite app_String, <- IH.
  - by exists "".
Qed.

Lemma re_variant_split s ab r : re_variant s = (ab, r) → s = ab +:+ r.
Proof.
  destruct s as [|c s]; simpl; [by intros [= <- <-]|].
  case_bool_decide; by intros [= <- <-].
Qed.

Lemma re_rest_of_line_split s rest :
  re_rest_of_line s = Some rest → ∃ post, s = rest +:+ post.
Proof.
  revert rest. induction s as [|c s IH]; intros rest; simpl.
  - intros [= <-]. by exists "".
  - destruct (Ascii.eqb c newline).
    + destruct s; [|done]. intros [= <-]. by eexists.
    + destruct (re_rest_of_line s) as [r|]; [|done]. simpl.
      intros [= <-]. destruct (IH r eq_refl) as [post ->].
      exists post. by rewrite app_String.
Qed.

(** The rest of an opening line is a part of the line. *)
Lemma re_opening_split line qnum ab rest :
  re_opening line = Some (qnum, ab, rest) →
  ∃ pre post, line = pre +:+ rest +:+ post.
Proof.
  intros (r & r' & (-> & _)%re_digits12_inv & Hv & Hrest)%re_opening_inv.
  destruct (str_lstrip_split r) as [ws1 Hr].
  apply re_variant_split in Hv.
  destruct (str_lstrip_split r') as [ws2 Hr'].
  apply re_rest_of_line_split in Hrest as [post Hrest].
  exists (qnum +:+ ws1 +:+ ab +:+ ws2), post.
  rewrite Hr, Hv, Hr', Hrest at 1. by rewrite !str_app_assoc.
Qed.

Lemma drop_variant_lines_Forall (P : string → Prop) ls :
  Forall P ls → Forall P (drop_variant_lines ls).
Proof.
  induction 1 as [|l ls Hl Hls IH]; simpl; [done|].
  destruct (variant_line l); [done|by constructor].
Qed.

Lemma continuation_lines_filtered rest block :
  Forall (λ l, l ≠ "(OR)" ∧ is_excluded l = false)
         (continuation_lines rest block).
Proof.
  assert (Forall (λ l, l ≠ "(OR)" ∧ is_excluded l = false)
            (filter (λ l, body_line l = true) block)) as Hkept.
  { apply Forall_forall. intros l [Hl _]%list_elem_of_filter.
    unfold body_line in Hl. apply andb_prop in Hl as [Hex Hor].
    apply negb_true_iff in Hex, Hor. split; [|done].
    intros ->. done. }
  unfold continuation_lines. destruct (String.eqb rest ""); [|done].
  by apply drop_variant_lines_Forall.
Qed.

(** What the inner loop reads: the lines up to the first boundary line.
    Their body lines are appended to the block, in their order, except for
    the variant letters that come while the block is empty. *)
Lemma collect_block_exact ls ab block ab' block' ls' :
  collect_block ab block ls = (ab', block', ls') →
  ∃ consumed,
    ls = consumed ++ ls' ∧
    Forall (λ l, block_boundary l = false) consumed ∧
    (∀ l, head ls' = Some l → block_boundary l = true) ∧
    block' = block ++
      (if bool_decide (block = [])
       then drop_variant_lines (filter (λ l, body_line l = true) consumed)
       else filter (λ l, body_line l = true) consumed).
Proof.
  revert ab block. induction ls as [|l ls IH]; intros ab block; simpl.
  - intros [= <- <- <-]. exists []. rewrite filter_nil.
    repeat split; try done. destruct (bool_decide (block = [])); simpl; by rewrite app_nil_r.
  - destruct (negb (re_opening_prefix l) &&
              negb (str_startswith "section" (str_lower l))) eqn:Hb.
    2:{ intros [= <- <- <-]. exists []. rewrite filter_nil.
        repeat split; try done.
        - intros l' [= <-]. unfold block_boundary.
          apply andb_false_iff in Hb as [Hb|Hb]; apply negb_false_iff in Hb;
            rewrite Hb; [done|apply orb_true_r].
        - destruct (bool_decide (block = [])); simpl; by rewrite app_nil_r. }
    assert (block_boundary l = false) as Hl.
    { unfold block_boundary. apply andb_prop in Hb as [H1 H2].
      apply negb_true_iff in H1, H2. by rewrite H1, H2. }
    change (negb (is_excluded l) && negb (String.eqb l "(OR)"))
      with (body_line l).
    destruct (body_line l) eqn:Hk.
    + destruct (bool_decide (l ∈ ["A"; "B"])) eqn:Hv; simpl.
      * destruct (bool_decide_reflect (block = [])) as [Hblock|Hblock]; simpl.
        -- intros (consumed & -> & Hall & Hnext & ->)%IH. subst block.
           exists (l :: consumed). rewrite filter_cons, decide_True by done.
           simpl. unfold variant_line at 1. rewrite Hv.
           repeat split; try done. by constructor.
        -- intros (consumed & -> & Hall & Hnext & ->)%IH.
           exists (l :: consumed). rewrite filter_cons, decide_True by done.
           rewrite bool_decide_eq_false_2 by by destruct block.
           rewrite <- app_assoc. repeat split; try done. by constructor.
      * intros (consumed & -> & Hall & Hnext & ->)%IH.
        exists (l :: consumed). rewrite filter_cons, decide_True by done.
        rewrite (bool_decide_eq_false_2 (block ++ [l] = [])) by by destruct block.
        rewrite <- app_assoc. simpl. unfold variant_line at 1. rewrite Hv.
        repeat split; try done; [by constructor|].
        by destruct (bool_decide (block = [])).
    + intros (consumed & -> & Hall & Hnext & ->)%IH.
      exists (l :: consumed). rewrite filter_cons, decide_False by by rewrite Hk.
      repeat split; try done. by constructor.
Qed.

Lemma loop_body_bc_body lines before st line tail st' :
  lines = before ++ line :: tail →
  loop_body st line tail = Ok st' →
  Forall (λ q, section q ≠ "A" → bc_body lines q) (result st) →
  Forall (λ q, section q ≠ "A" → bc_body lines q) (result st').
Proof.
  intros Hlines Hbody Hall.
  apply loop_body_inv in Hbody
    as [->|(sec & _ & _ & Hex & [[-> Ha]|[_ ->]])]; [done|..].
  - apply section_a_inv in Ha as [->|(qnum & r & stem & o & Hd & ->)]; [done|].
    apply Forall_app. split; [done|]. by apply Forall_singleton.
  - destruct (section_bc_inv st sec line tail)
      as [->|(qnum & ab & rest & ab' & block & ls' & _ & Ho & Hb & ->)]; [done|].
    apply Forall_app. split; [done|]. apply Forall_singleton. intros _.
    apply collect_block_exact in Hb as (consumed & -> & Hcons & Hnext & ->).
    exists before, line, consumed, ls', qnum, ab, rest, ab'.
    split; [done|]. split; [done|]. split; [done|]. split; [done|].
    split; [done|]. split; [done|]. split; [|split].
    + simpl. unfold continuation_lines.
      by destruct (String.eqb rest "").
    + destruct (is_excluded rest) eqn:Hrest; [|done].
      apply re_opening_split in Ho as (pre & post & ->).
      by rewrite is_excluded_part in Hex.
    + apply continuation_lines_filtered.
Qed.

(** C5 (amended). Every question of Section B or C emitted by
    [extract_questions] has an opening line among the normalized lines,
    a line that is not noise and carries the number of the question; its
    block is the run of lines after the opening line up to the next line
    that starts with a digit or with "section", or to the end; and its
    body is the join, with single spaces, of the rest of the opening line,
    when not empty, followed by the continuation lines of the block in
    their order: the lines of the block that neither match the Noise
    Filter nor equal the marker "(OR)", without the variant letters that
    precede all other body content when the opening line has no rest.
    So neither the rest of the opening line nor a continuation line
    matches the Noise Filter, and no continuation line is the marker.
    (The marker can still occur in the body, see the counterexample.) *)
Theorem bc_body_filtered raw_lines qs q :
  extract_questions raw_lines = Ok qs → q ∈ qs → section q ≠ "A" →
  bc_body (normalize raw_lines) q.
Proof.
  unfold extract_questions. intros Hrun Hq Hsec.
  apply (loop_invariant
           (λ st, (∃ before, normalize raw_lines = before ++ pending st) ∧
                  Forall (λ q, section q ≠ "A" → bc_body (normalize raw_lines) q)
                         (result st)))
    in Hrun as (st' & [_ Hall] & _ & <-).
  - eapply Forall_forall in Hall; [|done]. by apply Hall.
  - intros st line tail st' [[before Hbefore] Hall] Hpend Hbody.
    rewrite Hpend in Hbefore. split; [|by eapply loop_body_bc_body].
    destruct (loop_body_ok st line tail) as (st'' & Hbody' & [k Hsuf]).
    rewrite Hbody in Hbody'. injection Hbody' as <-.
    exists (before ++ line :: k). by rewrite Hbefore, Hsuf, <- app_assoc.
  - simpl. split; [by exists []|constructor].
Qed.

Lemma bc_body_filtered_witness :
  bc_body
    (normalize ["Section B"; "3 Define a graph."; "Batch: 2023"; "(OR)";
                "Give an example."])
    (mkQuestion "B" "3" "Define a graph. Give an example.").
Proof.
  apply (bc_body_filtered
           ["Section B"; "3 Define a graph."; "Batch: 2023"; "(OR)";
            "Give an example."]
           [mkQuestion "B" "3" "Define a graph. Give an example."]).
  - vm_compute. reflexivity.
  - apply list_elem_of_here.
  - done.
Defined.

(** An opening line without rest: the variant letters that come before
    any other body line set the variant and stay out of the body; a later
    letter line is body text. *)
Example variant_lines_before_body :
  continuation_lines "" ["A"; "Batch: 1"; "B"; "Explain."; "A"]
  = ["Explain."; "A"] ∧
  extract_questions
    ["Section B"; "7"; "A"; "Batch: 1"; "B"; "Explain."; "A"; "8 Next."]
  = Ok [mkQuestion "B" "7 B" "Explain. A"; mkQuestion "B" "8" "Next."].
Proof. vm_compute. done. Qed.

(** C5, as stated, fails: only continuation lines equal to the marker are
    dropped, so the marker stays in the body when it is the rest of the
    opening line or a part of a longer line. *)
Lemma or_marker_in_body :
  extract_questions ["Section C"; "16 (OR)"]
  = Ok [mkQuestion "C" "16" "(OR)"] ∧
  extract_questions ["Section B"; "7 Explain stacks."; "(OR) Explain queues."]
  = Ok [mkQuestion "B" "7" "Explain stacks. (OR) Explain queues."] ∧
  str_in "(OR)" "Explain stacks. (OR) Explain queues." = true.
Proof. vm_compute. done. Qed.

(** ** C6: the Canonical Sorter *)

Example leading_number_examples :
  leading_number "12 A" = 12%N ∧ leading_number " 07" = 7%N ∧
  leading_number "A 3" = 9999%N ∧ leading_number "" = 9999%N ∧
  leading_number "123456789012345678901" = 123456789012345678901%N.
Proof. vm_compute. done. Qed.

Lemma sort_key_spec q :
  sort_key q = (section_rank (section q), leading_number (label q),
                str_strip (label q)).
Proof.
  unfold sort_key.
  assert (default 99%N (section_order !! section q) = section_rank (section q))
    as ->.
  { unfold section_rank, section_order.
    destruct (String.eqb_spec (section q) "A") as [->|HA]; [done|].
    rewrite lookup_insert_ne by done.
    destruct (String.eqb_spec (section q) "B") as [->|HB]; [done|].
    rewrite lookup_insert_ne by done.
    destruct (String.eqb_spec (section q) "C") as [->|HC]; [done|].
    by rewrite lookup_insert_ne by done. }
  unfold leading_number. by destruct (re_digits (str_lstrip (label q))).
Qed.

(** The leading integer of a label, and the number of the key *)

Lemma uint_of_char_digit c d d' :
  DecimalString.uint_of_char c (Some d) = Some d' →
  is_digit c = true ∧
  N.of_uint d' = ((code c - 48) * 10 ^ DecimalPos.Unsigned.usize d + N.of_uint d)%N ∧
  DecimalPos.Unsigned.usize d' = N.succ (DecimalPos.Unsigned.usize d).
Proof.
  intros H. apply DecimalString.uint_of_char_spec in H.
  unfold N.of_uint.
  repeat (destruct H as [[-> ->]|H]; [split; [done|]; split; [|done] | ]);
    try (destruct H as [-> ->]; split; [done|]; split; [|done]);
    try (simpl; rewrite DecimalPos.Unsigned.of_uint_acc_rev,
           DecimalPos.Unsigned.of_uint_alt; change (code _ - 48)%N with 0%N
           || idtac; vm_compute (code _ - 48)%N; lia).
  simpl. vm_compute (code _ - 48)%N. lia.
Qed.

Lemma digit_uint_of_char c d :
  is_digit c = true → is_Some (DecimalString.uint_of_char c (Some d)).
Proof. destruct c as [[] [] [] [] [] [] [] []]; try done; intros _; by eexists. Qed.

(** [int] of a string of digits is the value of the decimal number. *)
Lemma int_of_digits_value ds u acc :
  DecimalString.NilEmpty.uint_of_string ds = Some u →
  int_of_digits acc ds
  = (acc * 10 ^ DecimalPos.Unsigned.usize u + N.of_uint u)%N.
Proof.
  revert u acc. induction ds as [|c ds IH]; intros u acc; simpl.
  - intros [= <-]. simpl. lia.
  - destruct (DecimalString.NilEmpty.uint_of_string ds) as [d|] eqn:Hd; [|done].
    intros (_ & -> & ->)%uint_of_char_digit.
    rewrite (IH d) by done. rewrite N.pow_succ_r'. ring.
Qed.

Lemma re_digits_app ds u tail :
  DecimalString.NilEmpty.uint_of_string ds = Some u →
  (∀ c t, tail = String c t → is_digit c = false) →
  re_digits (ds +:+ tail) = ds.
Proof.
  intros Hds Htail. revert u Hds. induction ds as [|c ds IH]; intros u; simpl.
  - intros _. destruct tail as [|c t]; [done|]. simpl.
    by rewrite (Htail c t eq_refl).
  - destruct (DecimalString.NilEmpty.uint_of_string ds) as [d|] eqn:Hd; [|done].
    intros (-> & _)%uint_of_char_digit. by rewrite (IH d).
Qed.

Lemma re_digits_split s :
  ∃ u tail,
    s = re_digits s +:+ tail ∧
    DecimalString.NilEmpty.uint_of_string (re_digits s) = Some u ∧
    (∀ c t, tail = String c t → is_digit c = false).
Proof.
  induction s as [|c s (u & tail & Hs & Hu & Htail)]; simpl.
  - exists Decimal.Nil, "". by repeat split.
  - destruct (is_digit c) eqn:Hc.
    + destruct (digit_uint_of_char c u Hc) as [u' Hu'].
      exists u', tail. simpl. rewrite Hu, app_String, <- Hs. by repeat split.
    + exists Decimal.Nil, (String c s). repeat split; try done.
      by intros ? ? [= <- <-].
Qed.

Lemma str_lstrip_split_spaces s :
  ∃ ws, s = ws +:+ str_lstrip s ∧ all_space ws = true ∧
        (∀ c t, str_lstrip s = String c t → is_space c = false).
Proof.
  induction s as [|c s (ws & Hs & Hws & Hc)]; simpl.
  - by exists "".
  - destruct (is_space c) eqn:E.
    + exists (String c ws). simpl. rewrite E, app_String, <- Hs.
      by repeat split.
    + exists "". repeat split; try done. by intros ? ? [= <- <-].
Qed.

(** The decomposition of the label fixes the leading integer: it is what
    [sort_key] reads. *)
Lemma leading_integer_inv l n :
  leading_integer l n →
  n = (if String.eqb (re_digits (str_lstrip l)) "" then None
       else Some (int_of_digits 0 (re_digits (str_lstrip l)))).
Proof.
  intros [ws ds u tail -> Hws Hds Hu Htail|ws tail -> Hws Htail].
  - rewrite str_lstrip_spaces by done.
    destruct ds as [|c ds]; [done|]. clear Hds.
    assert (is_digit c = true) as Hc.
    { simpl in Hu.
      destruct (DecimalString.NilEmpty.uint_of_string ds); [|done].
      by apply uint_of_char_digit in Hu as [? _]. }
    rewrite app_String, str_lstrip_nonspace by by apply digit_not_space.
    rewrite <- app_String, (re_digits_app _ u) by done.
    rewrite (int_of_digits_value (String c ds) u) by done.
    change (String.eqb (String c ds) "") with false. f_equal; lia.
  - rewrite str_lstrip_spaces by done.
    destruct tail as [|c t]; [done|].
    destruct (Htail c t eq_refl) as [Hd Hs].
    rewrite str_lstrip_nonspace by done. simpl. by rewrite Hd.
Qed.

Lemma leading_integer_total l : ∃ n, leading_integer l n.
Proof.
  destruct (str_lstrip_split_spaces l) as (ws & Hl & Hws & Hns).
  destruct (re_digits_split (str_lstrip l)) as (u & tail & Hs & Hu & Htail).
  destruct (re_digits (str_lstrip l)) as [|c ds] eqn:Hds.
  - exists None. apply (leading_integer_none l ws (str_lstrip l)); [done..|].
    intros c t E. split; [|by eapply Hns].
    rewrite E in Hds. simpl in Hds. by destruct (is_digit c).
  - exists (Some (N.of_uint u)).
    apply (leading_integer_some l ws (String c ds) u tail); try done.
    by rewrite <- Hs.
Qed.

Lemma leading_integer_key l n :
  leading_integer l n → leading_number l = default 9999%N n.
Proof.
  intros ->%leading_integer_inv. unfold leading_number.
  by destruct (re_digits (str_lstrip l)).
Qed.

Lemma str_compare_refl s : String.compare s s = Eq.
Proof.
  induction s as [|c s IH]; simpl; [done|].
  unfold Ascii.compare. by rewrite N.compare_refl.
Qed.

Lemma str_compare_lt_trans a b c :
  String.compare a b = Lt → String.compare b c = Lt → String.compare a c = Lt.
Proof.
  revert b c. induction a as [|x a IH]; intros [|y b] [|z c]; simpl; try done.
  unfold Ascii.compare.
  destruct (N.compare_spec (N_of_ascii x) (N_of_ascii y)) as [Exy|Lxy|Gxy],
           (N.compare_spec (N_of_ascii y) (N_of_ascii z)) as [Eyz|Lyz|Gyz];
    intros H1 H2; try done.
  - rewrite Exy, Eyz, N.compare_refl. by eapply IH.
  - by rewrite (proj2 (N.compare_lt_iff _ _)) by lia.
  - by rewrite (proj2 (N.compare_lt_iff _ _)) by lia.
  - by rewrite (proj2 (N.compare_lt_iff _ _)) by lia.
Qed.

Lemma str_leb_trans a b c :
  String.leb a b = true → String.leb b c = true → String.leb a c = true.
Proof.
  unfold String.leb.
  destruct (String.compare a b) eqn:Hab; [|  |done];
    destruct (String.compare b c) eqn:Hbc; try done; intros _ _.
  - apply String.compare_eq_iff in Hab as ->. by rewrite Hbc.
  - apply String.compare_eq_iff in Hab as ->. by rewrite Hbc.
  - apply String.compare_eq_iff in Hbc as <-. by rewrite Hab.
  - by rewrite (str_compare_lt_trans a b c).
Qed.

Lemma str_ltb_leb a b : String.ltb b a = false → String.leb a b = true.
Proof.
  unfold String.ltb, String.leb. rewrite (String.compare_antisym b a).
  by destruct (String.compare a b).
Qed.

Lemma str_ltb_leb' a b : String.ltb a b = true → String.leb a b = true.
Proof. unfold String.ltb, String.leb. by destruct (String.compare a b). Qed.

Lemma str_ltb_irrefl a : String.ltb a a = false.
Proof. unfold String.ltb. by rewrite str_compare_refl. Qed.

Lemma key_lt_irrefl a : key_lt a a = false.
Proof.
  destruct a as [[a1 a2] a3]. unfold key_lt.
  rewrite !N.eqb_refl. simpl. apply str_ltb_irrefl.
Qed.

Lemma key_lt_le a b : key_lt a b = true → key_le a b.
Proof.
  destruct a as [[a1 a2] a3], b as [[b1 b2] b3]. unfold key_lt, key_le. simpl.
  destruct (N.eqb_spec a1 b1) as [->|H1]; simpl.
  2:{ intros ?%N.ltb_lt. by left. }
  destruct (N.eqb_spec a2 b2) as [->|H2]; simpl.
  2:{ intros ?%N.ltb_lt. right. split; [done|by left]. }
  intros ?%str_ltb_leb'. right. split; [done|]. by right.
Qed.

Lemma key_not_lt_le a b : key_lt b a = false → key_le a b.
Proof.
  destruct a as [[a1 a2] a3], b as [[b1 b2] b3]. unfold key_lt, key_le. simpl.
  destruct (N.eqb_spec b1 a1) as [->|H1]; simpl.
  2:{ intros ?%N.ltb_ge. left. lia. }
  destruct (N.eqb_spec b2 a2) as [->|H2]; simpl.
  2:{ intros ?%N.ltb_ge. right. split; [done|]. left. lia. }
  intros ?%str_ltb_leb. right. split; [done|]. by right.
Qed.

Lemma key_le_trans a b c : key_le a b → key_le b c → key_le a c.
Proof.
  destruct a as [[a1 a2] a3], b as [[b1 b2] b3], c as [[c1 c2] c3].
  unfold key_le. simpl.
  intros [?|[-> [?|[-> Hab]]]] [?|[-> [?|[-> Hbc]]]];
    try (left; lia); try (right; split; [done|]; left; lia).
  right. split; [done|]. right. split; [done|]. by eapply str_leb_trans.
Qed.

Lemma insert_by_key_perm x l : insert_by_key x l ≡ₚ x :: l.
Proof.
  induction l as [|y l IH]; simpl; [done|].
  destruct (key_lt (sort_key y) (sort_key x)); [|done].
  rewrite IH. apply Permutation_swap.
Qed.

Lemma insert_by_key_sorted x l :
  StronglySorted (λ p q, key_le (sort_key p) (sort_key q)) l →
  StronglySorted (λ p q, key_le (sort_key p) (sort_key q)) (insert_by_key x l).
Proof.
  induction 1 as [|y l Hs IH Hall]; simpl.
  - by repeat constructor.
  - destruct (key_lt (sort_key y) (sort_key x)) eqn:Hlt.
    + constructor; [done|]. rewrite insert_by_key_perm.
      constructor; [by apply key_lt_le|done].
    + apply key_not_lt_le in Hlt.
      constructor; [by constructor|]. constructor; [done|].
      eapply Forall_impl; [exact Hall|]. intros z Hz. by eapply key_le_trans.
Qed.

Lemma insert_by_key_filter k x l :
  filter (λ q, sort_key q = k) (insert_by_key x l)
  = filter (λ q, sort_key q = k) (x :: l).
Proof.
  induction l as [|y l IH]; simpl; [done|].
  destruct (key_lt (sort_key y) (sort_key x)) eqn:Hlt; [|done].
  rewrite !filter_cons in *.
  destruct (decide (sort_key y = k)) as [Hy|Hy]; [|done].
  destruct (decide (sort_key x = k)) as [Hx|Hx]; [|by rewrite IH].
  rewrite Hx, Hy, key_lt_irrefl in Hlt. done.
Qed.

(** C6. [sorted] orders the questions ascending by the key.  The key of a
    question is the section rank (A=1, B=2, C=3, anything else 99), then
    the leading integer of the label, that is the decimal value of the
    digits that follow the leading whitespace of the label (9999 when no
    digit does; every label has a leading integer or none), then the
    trimmed label.  The output is a rearrangement of the input, and the
    questions with one and the same key keep their extraction order. *)
Theorem sorted_by_key_stable questions :
  (∀ q n, leading_integer (label q) n →
          sort_key q = (section_rank (section q), default 9999%N n,
                        str_strip (label q))) ∧
  (∀ q, ∃ n, leading_integer (label q) n) ∧
  StronglySorted (λ p q, key_le (sort_key p) (sort_key q)) (sorted questions) ∧
  sorted questions ≡ₚ questions ∧
  (∀ k, filter (λ q, sort_key q = k) (sorted questions)
        = filter (λ q, sort_key q = k) questions).
Proof.
  split.
  { intros q n Hn. by rewrite sort_key_spec, (leading_integer_key _ n). }
  split; [intros q; apply leading_integer_total|].
  induction questions as [|x l (IHs & IHp & IHf)]; simpl.
  - by repeat constructor.
  - split; [by apply insert_by_key_sorted|]. split.
    + by rewrite insert_by_key_perm, IHp.
    + intros k. rewrite insert_by_key_filter, !filter_cons. by rewrite IHf.
Qed.

(** The keys of the labels "10", " 07 B" and "x1", and the order in which
    the questions "10" and "2" of Section A come out. *)
Lemma sorted_by_key_stable_witness :
  sort_key (mkQuestion "A" "10" "t") = (1, 10, "10")%N ∧
  sort_key (mkQuestion "B" " 07 B" "b") = (2, 7, "07 B")%N ∧
  sort_key (mkQuestion "D" "x1" "x") = (99, 9999, "x1")%N ∧
  StronglySorted (λ p q, key_le (sort_key p) (sort_key q))
    (sorted [mkQuestion "A" "10" "t"; mkQuestion "A" "2" "a"]) ∧
  sorted [mkQuestion "A" "10" "t"; mkQuestion "A" "2" "a"]
  = [mkQuestion "A" "2" "a"; mkQuestion "A" "10" "t"].
Proof.
  destruct (sorted_by_key_stable
              [mkQuestion "A" "10" "t"; mkQuestion "A" "2" "a"])
    as (Hkey & _ & Hsorted & _ & _).
  split; [|split; [|split; [|split; [exact Hsorted|vm_compute; reflexivity]]]].
  - apply (Hkey (mkQuestion "A" "10" "t")
             (Some (N.of_uint (Decimal.D1 (Decimal.D0 Decimal.Nil))))).
    by apply (leading_integer_some _ "" "10" _ "").
  - apply (Hkey (mkQuestion "B" " 07 B" "b")
             (Some (N.of_uint (Decimal.D0 (Decimal.D7 Decimal.Nil))))).
    apply (leading_integer_some _ " " "07" _ " B"); try done.
    by intros c t [= <- <-].
  - apply (Hkey (mkQuestion "D" "x1" "x") None).
    apply (leading_integer_none _ "" "x1"); try done.
    by intros c t [= <- <-].
Defined.

(** * Further properties of the code *)

(** ** Stripping and cleaning *)

Lemma all_space_lstrip s : all_space s = true ↔ str_lstrip s = "".
Proof.
  induction s as [|c s IH]; simpl; [done|].
  destruct (is_space c); simpl; [done|]. split; done.
Qed.

Lemma all_space_rstrip s : all_space s = true ↔ str_rstrip s = "".
Proof.
  induction s as [|c s IH]; simpl; [done|].
  destruct (str_rstrip s) eqn:E.
  - destruct (is_space c); simpl; [by rewrite IH|]. split; done.
  - rewrite andb_true_iff, IH. split; [by intros [_ ?]|done].
Qed.

Lemma str_rstrip_idemp s : str_rstrip (str_rstrip s) = str_rstrip s.
Proof.
  induction s as [|c s IH]; simpl; [done|].
  destruct (str_rstrip s) as [|d r] eqn:E.
  - destruct (is_space c) eqn:Hc; simpl; [done|]. by rewrite Hc.
  - simpl in *. by rewrite IH.
Qed.

Lemma str_lstrip_head s :
  str_lstrip s = "" ∨ ∃ c r, str_lstrip s = String c r ∧ is_space c = false.
Proof.
  induction s as [|c s IH]; simpl; [by left|].
  destruct (is_space c) eqn:Hc; [done|]. right. eauto.
Qed.

(** A stripped string is empty or starts with a character that is not
    whitespace, and stripping it again changes nothing. *)
Lemma str_strip_head s :
  str_strip s = "" ∨ ∃ c r, str_strip s = String c r ∧ is_space c = false.
Proof.
  unfold str_strip. destruct (str_lstrip_head s) as [->|(c & r & -> & Hc)].
  - by left.
  - right. destruct (str_rstrip_nonspace c r Hc) as [r' ->]. eauto.
Qed.

Lemma str_strip_idemp s : str_strip (str_strip s) = str_strip s.
Proof.
  destruct (str_strip_head s) as [->|(c & r & E & Hc)]; [done|].
  unfold str_strip at 1. rewrite E, str_lstrip_nonspace by done.
  rewrite <- E. unfold str_strip. apply str_rstrip_idemp.
Qed.

(** ** The document reader *)

Lemma append_stripped_spec t :
  Forall (λ l, str_strip l = l ∧ l ≠ "") (append_stripped t).
Proof.
  unfold append_stripped. destruct (String.eqb_spec (str_strip t) ""); [done|].
  apply Forall_singleton. split; [apply str_strip_idemp|done].
Qed.

Lemma Forall_flat_map {A B} (P : B → Prop) (f : A → list B) l :
  (∀ x, Forall P (f x)) → Forall P (flat_map f l).
Proof.
  intros Hf. induction l as [|x l IH]; simpl; [done|].
  apply Forall_app. by split.
Qed.

Lemma get_all_text_lines doc :
  Forall (λ l, str_strip l = l ∧ l ≠ "") (get_all_text doc).
Proof.
  unfold get_all_text. apply Forall_app. split.
  - apply Forall_flat_map, append_stripped_spec.
  - apply Forall_flat_map. intros table.
    apply Forall_flat_map. intros row.
    apply Forall_flat_map, append_stripped_spec.
Qed.

(** X1. Every line that [get_all_text] returns is non-empty and has no
    whitespace at either end, whatever the paragraphs and the table cells
    of the document hold; a paragraph or a cell gives no line exactly when
    it holds whitespace only, and its stripped text otherwise. *)
Theorem get_all_text_stripped doc :
  Forall (λ l, str_strip l = l ∧ l ≠ "") (get_all_text doc) ∧
  (∀ t, append_stripped t = if all_space t then [] else [str_strip t]).
Proof.
  split; [apply get_all_text_lines|].
  intros t. unfold append_stripped.
  destruct (all_space t) eqn:Ht.
  - apply all_space_lstrip in Ht. unfold str_strip. by rewrite Ht.
  - destruct (String.eqb_spec (str_strip t) "") as [E|]; [|done].
    unfold str_strip in E. apply all_space_rstrip, all_space_lstrip in E.
    destruct (str_lstrip_head t) as [E'|(c & r & E' & Hc)].
    + apply all_space_lstrip in E'. congruence.
    + rewrite E', str_lstrip_nonspace in E by done. done.
Qed.

(** X2. For every document, the lines that [extract_questions] scans, the
    normalized lines of [get_all_text], contain no empty string and no two
    equal neighbours. *)
Theorem document_lines_normalized doc :
  ("" ∉ normalize (get_all_text doc)) ∧
  adjacent_distinct (normalize (get_all_text doc)).
Proof.
  split; [apply normalize_from_no_empty|].
  apply normalize_from_adjacent.
  eapply Forall_impl; [apply get_all_text_lines|].
  intros l [Hs Hne]. by apply clean_line_nonempty.
Qed.

Example get_all_text_example :
  get_all_text
    (mkDocument ["  Name: Jane Doe "; "   "; "Section A"]
                [[["1"; " What is 2+2? "]; [""; "A 3"]]; [["B  4"]]])
  = ["Name: Jane Doe"; "Section A"; "1"; "What is 2+2?"; "A 3"; "B  4"].
Proof. vm_compute. reflexivity. Qed.

(** ** The cleaned lines *)

Lemma sub_spaces_true_lstrip s :
  sub_spaces true s = sub_spaces false (str_lstrip s).
Proof.
  induction s as [|c s IH]; simpl; [done|].
  destruct (is_space c) eqn:Hc; [done|]. simpl. by rewrite Hc.
Qed.

Lemma str_rstrip_fixed c s :
  str_rstrip (String c s) = String c s →
  (s = "" ∧ is_space c = false) ∨ (s ≠ "" ∧ str_rstrip s = s).
Proof.
  simpl. destruct (str_rstrip s) as [|d r] eqn:E.
  - destruct (is_space c); [done|]. intros [= <-]. by left.
  - intros [= <-]. by right.
Qed.

(** Cleaning a string without trailing whitespace, from a character that
    is not whitespace: the result starts with that character. *)
Lemma sub_spaces_head s :
  str_rstrip s = s → s ≠ "" →
  ∃ d r, sub_spaces true s = String d r ∧ is_space d = false.
Proof.
  induction s as [|c s IH]; [done|]. intros Hfix _.
  apply str_rstrip_fixed in Hfix as [[-> Hc]|[Hne Hfix]]; simpl.
  - rewrite Hc. eauto.
  - destruct (is_space c) eqn:Hc; [by apply IH|eauto].
Qed.

Lemma spaces_inside_space d r :
  is_space d = false →
  spaces_inside (String " " (String d r)) = spaces_inside (String d r).
Proof.
  intros Hd. change (spaces_inside (String " " (String d r)))
    with (negb (is_space d) && spaces_inside (String d r)).
  by rewrite Hd.
Qed.

Lemma sub_spaces_inside b s :
  str_rstrip s = s → spaces_inside (sub_spaces b s) = true.
Proof.
  revert b. induction s as [|c s IH]; intros b Hfix; [done|].
  apply str_rstrip_fixed in Hfix as [[-> Hc]|[Hne Hfix]]; simpl.
  - rewrite Hc. simpl. by rewrite Hc.
  - destruct (is_space c) eqn:Hc.
    + destruct b; [by apply IH|].
      destruct (sub_spaces_head s Hfix Hne) as (d & r & E & Hd).
      rewrite E, spaces_inside_space by done. rewrite <- E. by apply IH.
    + simpl. rewrite Hc. simpl. by apply IH.
Qed.

Lemma clean_line_single_spaced s : single_spaced (clean_line s) = true.
Proof.
  unfold clean_line.
  assert (str_rstrip (str_strip s) = str_strip s) as Hfix
    by apply str_rstrip_idemp.
  destruct (str_strip_head s) as [E|(c & r & E & Hc)]; rewrite E in *; [done|].
  pose proof (sub_spaces_inside false _ Hfix) as Hin.
  simpl in Hin. rewrite Hc in Hin. simpl sub_spaces. rewrite Hc.
  unfold single_spaced. by rewrite Hc, Hin.
Qed.

Lemma spaces_inside_rstrip s : spaces_inside s = true → str_rstrip s = s.
Proof.
  induction s as [|c s IH]; [done|]. simpl.
  intros [Hc Hs]%andb_prop. rewrite (IH Hs).
  destruct s as [|d s]; [|done].
  destruct (is_space c); [|done]. by apply andb_prop in Hc as [_ ?].
Qed.

Lemma spaces_inside_fixed b s :
  spaces_inside s = true →
  (b = true → ∀ c r, s = String c r → is_space c = false) →
  sub_spaces b s = s.
Proof.
  revert b. induction s as [|c s IH]; intros b Hs Hb; [done|].
  simpl in Hs. apply andb_prop in Hs as [Hc Hs]. simpl.
  destruct (is_space c) eqn:Hsp.
  - destruct b; [by rewrite (Hb eq_refl c s eq_refl) in Hsp|].
    apply andb_prop in Hc as [Heq Hnext].
    apply Ascii.eqb_eq in Heq as ->. f_equal. apply IH; [done|].
    intros _ d r ->. by apply negb_true_iff in Hnext.
  - f_equal. by apply IH.
Qed.

Lemma single_spaced_fixed s : single_spaced s = true → clean_line s = s.
Proof.
  destruct s as [|c s]; [done|]. unfold single_spaced.
  intros [Hc Hs]%andb_prop. apply negb_true_iff in Hc.
  unfold clean_line, str_strip. rewrite str_lstrip_nonspace by done.
  rewrite spaces_inside_rstrip by done. by apply spaces_inside_fixed.
Qed.

(** X3. A cleaned line has no whitespace at its ends, and every whitespace
    character in it is a single space between two other characters; the
    strings of this form are exactly those that [clean_line] leaves
    unchanged, so cleaning twice is cleaning once. *)
Theorem clean_line_canonical s :
  single_spaced (clean_line s) = true ∧
  clean_line (clean_line s) = clean_line s ∧
  (single_spaced s = true ↔ clean_line s = s).
Proof.
  split; [apply clean_line_single_spaced|]. split.
  - apply single_spaced_fixed, clean_line_single_spaced.
  - split; [apply single_spaced_fixed|].
    intros <-. apply clean_line_single_spaced.
Qed.

Example clean_line_example :
  clean_line (String "009" " 12   A" +:+ String "009" (String "010" "Explain  it. "))
  = "12 A Explain it.".
Proof. vm_compute. reflexivity. Qed.

(** ** Normalizing twice *)

Lemma adjacent_distinct_tail x l :
  adjacent_distinct (x :: l) → adjacent_distinct l ∧ head l ≠ Some x.
Proof.
  intros H. split.
  - intros i a b Ha Hb. by apply (H (S i) a b).
  - destruct l as [|y l]; [done|]. simpl. intros [= ->].
    by apply (H 0 x x).
Qed.

Lemma normalize_from_fixed prev lines :
  Forall (λ l, clean_line l = l ∧ l ≠ "") lines →
  adjacent_distinct lines → (∀ x, head lines = Some x → Some x ≠ prev) →
  normalize_from prev lines = lines.
Proof.
  intros Hall. revert prev. induction Hall as [|x l [Hx Hne] Hall IH];
    intros prev Hadj Hhd; simpl; [done|].
  rewrite Hx. destruct (String.eqb_spec x ""); [done|]. simpl.
  rewrite bool_decide_eq_false_2 by by apply Hhd. simpl.
  apply adjacent_distinct_tail in Hadj as [Hadj Hhd']. f_equal.
  apply IH; [done|]. intros y Hy [= ->]. by rewrite Hy in Hhd'.
Qed.

(** X4. When no raw line is empty or has whitespace at its ends, as for
    the lines of [get_all_text], normalizing the normalized lines again
    changes nothing, and [extract_questions] returns for the normalized
    lines what it returns for the raw ones. *)
Theorem normalize_idempotent raw_lines :
  Forall (λ l, str_strip l = l ∧ l ≠ "") raw_lines →
  normalize (normalize raw_lines) = normalize raw_lines ∧
  extract_questions (normalize raw_lines) = extract_questions raw_lines.
Proof.
  intros Hall.
  assert (normalize (normalize raw_lines) = normalize raw_lines) as Hfix.
  { assert (Forall (λ l, clean_line l ≠ "") raw_lines) as Hne.
    { eapply Forall_impl; [exact Hall|]. intros l [? ?].
      by apply clean_line_nonempty. }
    destruct (normalize_from_adjacent None raw_lines Hne) as [Hadj _].
    apply normalize_from_fixed; [|done|done].
    apply Forall_forall. intros x Hx. split.
    - apply normalize_from_clean in Hx as (l & _ & ->).
      apply single_spaced_fixed, clean_line_single_spaced.
    - intros ->. by apply normalize_from_no_empty in Hx. }
  split; [done|]. unfold extract_questions. by rewrite Hfix.
Qed.

Lemma normalize_idempotent_witness :
  normalize (normalize ["Section  A"; "1   What?"; "1 What?"; "A 3"])
  = normalize ["Section  A"; "1   What?"; "1 What?"; "A 3"] ∧
  extract_questions (normalize ["Section  A"; "1   What?"; "1 What?"; "A 3"])
  = extract_questions ["Section  A"; "1   What?"; "1 What?"; "A 3"].
Proof.
  apply normalize_idempotent.
  repeat (apply Forall_cons; split; [split; [vm_compute; reflexivity|done]|]).
  apply Forall_nil_2.
Defined.

(** Without the hypothesis a second pass can remove one more line. *)
Example normalize_twice_blank :
  normalize (normalize ["a"; "  "; "a"]) = ["a"] ∧
  normalize ["a"; "  "; "a"] = ["a"; "a"].
Proof. vm_compute. done. Qed.

(** ** The Noise Filter *)

Lemma lower_upper_char c : lower_char (upper_char c) = lower_char c.
Proof. by destruct c as [[] [] [] [] [] [] [] []]. Qed.

Lemma lower_lower_char c : lower_char (lower_char c) = lower_char c.
Proof. by destruct c as [[] [] [] [] [] [] [] []]. Qed.

Lemma str_lower_upper s : str_lower (str_upper s) = str_lower s.
Proof.
  unfold str_lower, str_upper. induction s as [|c s IH]; simpl; [done|].
  by rewrite lower_upper_char, IH.
Qed.

Lemma str_lower_lower s : str_lower (str_lower s) = str_lower s.
Proof.
  unfold str_lower. induction s as [|c s IH]; simpl; [done|].
  by rewrite lower_lower_char, IH.
Qed.

(** X5. On ASCII text the Noise Filter does not depend on the case of the
    letters: an ASCII line, its upper-case form and its lower-case form are
    excluded together or not at all.  (Beyond ASCII [upper] can create a
    blocklist entry, as in "claß:", whose upper-case form holds "CLASS:".) *)
Theorem is_excluded_case_insensitive s :
  str_isascii s = true →
  is_excluded (str_upper s) = is_excluded s ∧
  is_excluded (str_lower s) = is_excluded s.
Proof.
  intros _. unfold is_excluded. by rewrite str_lower_upper, str_lower_lower.
Qed.

Lemma is_excluded_case_insensitive_witness :
  str_isascii "Max. Marks: 50" = true ∧
  is_excluded (str_upper "Max. Marks: 50") = is_excluded "Max. Marks: 50" ∧
  is_excluded (str_lower "Max. Marks: 50") = is_excluded "Max. Marks: 50" ∧
  is_excluded "MAX. MARKS: 50" = true.
Proof.
  assert (str_isascii "Max. Marks: 50" = true) as Hascii by reflexivity.
  destruct (is_excluded_case_insensitive "Max. Marks: 50" Hascii) as [Hu Hl].
  split; [exact Hascii|]. split; [exact Hu|]. split; [exact Hl|].
  vm_compute. reflexivity.
Defined.

(** X6. The Noise Filter looks anywhere in the line: a line that contains
    an excluded text, with anything before and after it, is excluded. *)
Theorem is_excluded_anywhere pre s post :
  is_excluded s = true → is_excluded (pre +:+ s +:+ post) = true.
Proof. apply is_excluded_part. Qed.

Lemma is_excluded_anywhere_witness :
  is_excluded ("7 Explain the role of a " +:+ "College" +:+ " in society.")
  = true.
Proof.
  apply (is_excluded_anywhere "7 Explain the role of a " "College"
           " in society.").
  vm_compute. reflexivity.
Defined.

(** ** The shape of the emitted questions *)

Lemma re_number_only_cases q :
  re_number_only q = true →
  (∃ a, q = String a "" ∧ is_digit a = true) ∨
  (∃ a b, q = String a (String b "") ∧ is_digit a = true ∧ is_digit b = true).
Proof.
  unfold re_number_only. destruct q as [|a [|b [|c q]]]; simpl; try done.
  - destruct (is_digit a) eqn:Ha; [|done]. intros _. left. eauto.
  - destruct (is_digit a) eqn:Ha; [|done].
    destruct (is_digit b) eqn:Hb; [|done]. intros _. right. eauto 6.
  - destruct (is_digit a); [|done]. by destruct (is_digit b).
Qed.

Lemma digit_value a : is_digit a = true → (code a - 48 < 10)%N.
Proof. destruct a as [[] [] [] [] [] [] [] []]; try done; intros _; by vm_compute. Qed.

Lemma space_not_digit : is_digit " " = false.
Proof. done. Qed.

(** The label made of a number and a variant that is empty, "A" or "B". *)
Lemma strip_label qnum ab :
  re_number_only qnum = true → ab ∈ [""; "A"; "B"] →
  ∃ suffix, suffix ∈ [""; " A"; " B"] ∧
            str_strip (qnum +:+ " " +:+ ab) = qnum +:+ suffix ∧
            (ab = "" → suffix = "").
Proof.
  intros Hn Hab.
  apply elem_of_cons in Hab as [->|Hab].
  - exists "". split; [left|]. split; [|done]. rewrite app_empty_r.
    apply re_number_only_cases in Hn
      as [(a & -> & Ha)|(a & b & -> & Ha & Hb)];
      apply digit_not_space in Ha; try apply digit_not_space in Hb;
      unfold str_strip; simpl; rewrite ?Ha, ?Hb; simpl; by rewrite ?Ha, ?Hb.
  - assert (∃ c, ab = String c "" ∧ c ∈ ["A"; "B"]%char) as (c & -> & Hc).
    { apply elem_of_cons in Hab as [->|Hab]; [exists "A"%char; split; [done|left]|].
      apply list_elem_of_singleton in Hab as ->.
      exists "B"%char. split; [done|]. right. left. }
    rewrite label_with_variant by done.
    exists (" " +:+ String c ""). split; [|split; [done|done]].
    apply elem_of_cons in Hc as [->|Hc]; [right; left|].
    apply list_elem_of_singleton in Hc as ->. right. right. left.
Qed.

Lemma re_variant_cases s ab r :
  re_variant s = (ab, r) → ab ∈ [""; "A"; "B"].
Proof.
  destruct s as [|c s]; simpl; [intros [= <- <-]; left|].
  case_bool_decide as Hc; intros [= <- <-]; [|left].
  apply elem_of_cons in Hc as [->|Hc]; [right; left|].
  apply list_elem_of_singleton in Hc as ->. right. right. left.
Qed.

Lemma collect_block_variant ls ab block ab' block' ls' :
  collect_block ab block ls = (ab', block', ls') →
  ab ∈ [""; "A"; "B"] → ab' ∈ [""; "A"; "B"].
Proof.
  revert ab block. induction ls as [|l ls IH]; intros ab block; simpl.
  - by intros [= <- <- <-].
  - destruct (_ && _); [|by intros [= <- <- <-]].
    destruct (_ && _); [|apply IH].
    case_bool_decide as Hl; simpl; [|apply IH].
    case_bool_decide as Hblock; simpl; [|apply IH].
    intros Hrun _. apply (IH _ _ Hrun). by right.
Qed.

Lemma loop_body_well_labelled st line tail st' :
  loop_body st line tail = Ok st' →
  Forall well_labelled (result st) → Forall well_labelled (result st').
Proof.
  intros Hbody Hall.
  apply loop_body_inv in Hbody as [->|(sec & _ & _ & _ & [[-> Ha]|[Hne ->]])]; [done|..].
  - apply section_a_inv in Ha as [->|(qnum & r & stem & o & Hd & ->)]; [done|].
    apply Forall_app. split; [done|]. apply Forall_singleton.
    split; [left|]. exists qnum, "". simpl.
    split; [by eapply re_digits12_number_only|]. split; [left|].
    by rewrite app_empty_r.
  - destruct (section_bc_inv st sec line tail)
      as [->|(qnum & ab & rest & ab' & block & ls' & Hsec & Ho & Hb & ->)]; [done|].
    apply Forall_app. split; [done|]. apply Forall_singleton.
    apply re_opening_inv in Ho as (r & r' & Hd & Hv & _).
    apply re_digits12_number_only in Hd.
    apply re_variant_cases in Hv.
    apply (collect_block_variant _ _ _ _ _ _ Hb) in Hv.
    destruct (strip_label qnum ab' Hd Hv) as (suffix & Hsuf & E & _).
    split; [by right|]. exists qnum, suffix. simpl. by rewrite E.
Qed.

Lemma label_key qnum suffix :
  re_number_only qnum = true → suffix ∈ [""; " A"; " B"] →
  leading_number (qnum +:+ suffix) = int_of_digits 0 qnum ∧
  (int_of_digits 0 qnum < 100)%N ∧
  str_strip (qnum +:+ suffix) = qnum +:+ suffix.
Proof.
  intros Hn Hsuf.
  assert (∀ a, is_digit a = true → is_space a = false) as Hds
    by apply digit_not_space.
  apply re_number_only_cases in Hn
    as [(a & -> & Ha)|(a & b & -> & Ha & Hb)];
    pose proof (digit_value a Ha); try pose proof (digit_value b Hb);
    pose proof (Hds a Ha) as Hsa; try pose proof (Hds b Hb) as Hsb;
    (split; [|split; [simpl; lia|]]);
    elem_cases Hsuf;
    unfold leading_number, str_strip; simpl;
    rewrite ?Hsa, ?Hsb; simpl; rewrite ?Ha, ?Hb, ?Hsa, ?Hsb; simpl;
    rewrite ?Ha, ?Hb; done.
Qed.

Lemma number_only_value qnum :
  re_number_only qnum = true →
  ∃ u, DecimalString.NilEmpty.uint_of_string qnum = Some u.
Proof.
  intros [(a & -> & Ha)|(a & b & -> & Ha & Hb)]%re_number_only_cases;
    cbn [DecimalString.NilEmpty.uint_of_string].
  - by apply digit_uint_of_char.
  - destruct (digit_uint_of_char b Decimal.Nil Hb) as [d ->].
    by apply digit_uint_of_char.
Qed.

(** X7. Every question that [extract_questions] emits has section A, B or
    C and a label made of a number of one or two digits, followed in
    Sections B and C by a space and the variant A or B when there is one.
    For such a question the sort key never takes its fallback values: the
    rank is the one of the section, 1, 2 or 3; the number is the leading
    integer of the label, the decimal value of its digits, which is below
    100; and the third component is the label itself. *)
Theorem emitted_question_key raw_lines qs q :
  extract_questions raw_lines = Ok qs → q ∈ qs →
  well_labelled q ∧
  ∃ num,
    leading_integer (label q) (Some num) ∧ (num < 100)%N ∧
    section_rank (section q) ∈ [1; 2; 3]%N ∧
    sort_key q = (section_rank (section q), num, label q).
Proof.
  unfold extract_questions. intros Hrun Hq.
  apply (loop_invariant (λ st, Forall well_labelled (result st)))
    in Hrun as (st' & Hall & _ & <-).
  2:{ intros st line tail st' Hall _ Hbody. by eapply loop_body_well_labelled. }
  2:{ simpl. constructor. }
  eapply Forall_forall in Hall; [|done]. split; [done|].
  destruct Hall as [Hsec (qnum & suffix & Hn & Hsuf & Hlab & _)].
  destruct (label_key qnum suffix Hn Hsuf) as (Hnum & Hlt & Hstrip).
  destruct (number_only_value qnum Hn) as [u Hu].
  assert (int_of_digits 0 qnum = N.of_uint u) as Hval.
  { rewrite (int_of_digits_value qnum u) by done. lia. }
  exists (N.of_uint u). split; [|split; [lia|split]].
  - rewrite Hlab.
    apply (leading_integer_some _ "" qnum u suffix); try done.
    + intros ->. done.
    + intros c t E. clear -Hsuf E. elem_cases Hsuf; by injection E as <- _.
  - clear -Hsec. elem_cases Hsec.
    + left.
    + right. left.
    + right. right. left.
  - by rewrite sort_key_spec, Hlab, Hnum, Hstrip, Hval.
Qed.

Lemma emitted_question_key_witness :
  well_labelled (mkQuestion "B" "07 B" "Explain iteration.") ∧
  ∃ num,
    leading_integer "07 B" (Some num) ∧ (num < 100)%N ∧
    section_rank "B" ∈ [1; 2; 3]%N ∧
    sort_key (mkQuestion "B" "07 B" "Explain iteration.")
    = (section_rank "B", num, "07 B").
Proof.
  apply (emitted_question_key
           ["Section B"; "7 A Explain recursion."; "(OR)";
            "07 B Explain iteration."]
           [mkQuestion "B" "7 A" "Explain recursion.";
            mkQuestion "B" "07 B" "Explain iteration."]).
  - vm_compute. reflexivity.
  - apply list_elem_of_further, list_elem_of_here.
Defined.

(** The leading integer of the label "07 B" is 7: the key of the question
    above is (2, 7, "07 B"). *)
Example label_07_B_key :
  leading_integer "07 B" (Some 7%N) ∧
  sort_key (mkQuestion "B" "07 B" "Explain iteration.") = (2, 7, "07 B")%N.
Proof.
  split; [|vm_compute; reflexivity].
  apply (leading_integer_some _ "" "07" (Decimal.D0 (Decimal.D7 Decimal.Nil)) " B");
    try done.
  by intros c t [= <- <-].
Qed.

(** ** The opening pattern of Sections B and C on cleaned lines *)

Lemma spaces_inside_tail c s : spaces_inside (String c s) = true → spaces_inside s = true.
Proof. simpl. by intros [_ ?]%andb_prop. Qed.

Lemma spaces_inside_app_r s t : spaces_inside (s +:+ t) = true → spaces_inside t = true.
Proof.
  induction s as [|c s IH]; [done|]. rewrite app_String.
  intros H%spaces_inside_tail. by apply IH.
Qed.

Lemma spaces_inside_lstrip s : spaces_inside s = true → spaces_inside (str_lstrip s) = true.
Proof.
  induction s as [|c s IH]; [done|]. intros H. simpl.
  destruct (is_space c); [|done]. by apply IH, spaces_inside_tail with c.
Qed.

Lemma space_char_eq c : is_space c = true → Ascii.eqb c " " = true → Ascii.eqb c newline = false.
Proof. by intros _ ->%Ascii.eqb_eq. Qed.

Lemma nonspace_not_newline c : is_space c = false → Ascii.eqb c newline = false.
Proof. by destruct c as [[] [] [] [] [] [] [] []]. Qed.

(** Without a newline the rest-of-line group takes everything. *)
Lemma spaces_inside_rest_of_line s :
  spaces_inside s = true → re_rest_of_line s = Some s.
Proof.
  induction s as [|c s IH]; [done|]. intros H. simpl.
  assert (Ascii.eqb c newline = false) as ->.
  { simpl in H. apply andb_prop in H as [H _].
    destruct (is_space c) eqn:Hc; [|by apply nonspace_not_newline].
    apply andb_prop in H as [H _]. by apply space_char_eq. }
  by rewrite IH by by eapply spaces_inside_tail.
Qed.

Lemma single_spaced_inside s : single_spaced s = true → spaces_inside s = true.
Proof. destruct s; [done|]. unfold single_spaced. by intros [_ ?]%andb_prop. Qed.

Lemma re_digits12_digit line :
  re_opening_prefix line = true → is_Some (re_digits12 line).
Proof.
  unfold re_opening_prefix. destruct line as [|a [|b s]]; simpl; [done|..];
    intros ->; [done|]. by destruct (is_digit b).
Qed.

Lemma re_opening_spaces_inside line :
  spaces_inside line = true → re_opening_prefix line = true →
  ∃ qnum ab rest, re_opening line = Some (qnum, ab, rest).
Proof.
  intros Hin Hd. unfold re_opening.
  destruct (re_digits12 line) as [[qnum r]|] eqn:E.
  2:{ apply re_digits12_digit in Hd as [? Hd]. congruence. }
  simpl. apply re_digits12_inv in E as [-> _].
  apply spaces_inside_app_r, spaces_inside_lstrip in Hin.
  destruct (re_variant (str_lstrip r)) as [ab r'] eqn:Ev.
  apply re_variant_split in Ev. rewrite Ev in Hin.
  apply spaces_inside_app_r, spaces_inside_lstrip in Hin.
  rewrite spaces_inside_rest_of_line by done. simpl. eauto.
Qed.

Lemma header_not_digit p line :
  str_startswith (String "s" p) (str_lower line) = true →
  re_opening_prefix line = false.
Proof.
  destruct line as [|c line]; [done|]. unfold str_lower. simpl.
  rewrite str_startswith_cons. intros [Hc _]%andb_prop.
  unfold re_opening_prefix. by destruct c as [[] [] [] [] [] [] [] []].
Qed.

(** X8. On a cleaned line the opening pattern of Sections B and C matches
    exactly when the line starts with a digit, which is the first of the
    two tests that end a block.  So every line that matches the opening
    pattern ends the block before it, and a line that ends a block matches
    the opening pattern or starts with "section" (any case).  A line opens
    a question only if it is moreover not excluded; a line that starts
    with "section", or an excluded line that starts with a digit, ends a
    block and opens none. *)
Theorem opening_iff_digit l :
  (is_Some (re_opening (clean_line l))
   ↔ re_opening_prefix (clean_line l) = true) ∧
  (block_boundary (clean_line l) = true
   ↔ is_Some (re_opening (clean_line l)) ∨
     str_startswith "section" (str_lower (clean_line l)) = true) ∧
  (opening_line (clean_line l) = true
   ↔ is_Some (re_opening (clean_line l)) ∧ is_excluded (clean_line l) = false) ∧
  (is_Some (re_opening (clean_line l)) →
   str_startswith "section" (str_lower (clean_line l)) = false).
Proof.
  assert (is_Some (re_opening (clean_line l))
          ↔ re_opening_prefix (clean_line l) = true) as Hopen.
  { split.
    - intros [[[qnum ab] rest] (r & r' & Hd & _)%re_opening_inv].
      apply re_digits12_inv in Hd as (E & c & q & -> & Hc).
      rewrite E, app_String. unfold re_opening_prefix. done.
    - intros Hd.
      destruct (re_opening_spaces_inside (clean_line l)) as (q & ab & rest & ->);
        [|done|done].
      apply single_spaced_inside, clean_line_single_spaced. }
  split; [done|]. split; [|split].
  - unfold block_boundary. rewrite orb_true_iff. by rewrite Hopen.
  - unfold opening_line. rewrite andb_true_iff, negb_true_iff. by rewrite Hopen.
  - rewrite Hopen. intros Hd.
    destruct (str_startswith "section" (str_lower (clean_line l))) eqn:Hs; [|done].
    apply header_not_digit in Hs. congruence.
Qed.

(** The line "Sectional view" ends a block and opens nothing; so does the
    excluded line "12 Max. Marks". *)
Example block_end_without_opening :
  block_boundary (clean_line "Sectional view") = true ∧
  re_opening (clean_line "Sectional view") = None ∧
  block_boundary (clean_line "12 Max. Marks") = true ∧
  opening_line (clean_line "12 Max. Marks") = false.
Proof. vm_compute. done. Qed.

(** On a line with a newline inside, the pattern can fail after a digit. *)
Example opening_fails_on_newline :
  re_opening (String "7" (String newline "x" +:+ String newline "y")) = None.
Proof. vm_compute. reflexivity. Qed.

(** ** Blocks of Sections B and C *)

Lemma collect_block_spec body next ab block :
  block ≠ [] →
  Forall (λ l, block_boundary l = false) body →
  (∀ l ls, next = l :: ls → block_boundary l = true) →
  collect_block ab block (body ++ next)
  = (ab, block ++ filter (λ l, body_line l = true) body, next).
Proof.
  intros Hne Hbody Hnext. revert block Hne.
  induction Hbody as [|l body Hl Hbody IH]; intros block Hne; simpl.
  - rewrite app_nil_r. destruct next as [|l ls]; [done|]. simpl.
    pose proof (Hnext l ls eq_refl) as Hb. unfold block_boundary in Hb.
    apply orb_prop in Hb as [->| ->]; [done|]. by rewrite andb_false_r.
  - unfold block_boundary in Hl. apply orb_false_elim in Hl as [-> ->]. simpl.
    change (negb (is_excluded l) && negb (String.eqb l "(OR)"))
      with (body_line l).
    rewrite filter_cons. destruct (decide (body_line l = true)) as [Hk|Hk].
    + rewrite Hk.
      rewrite (bool_decide_eq_false_2 (block = [])), andb_false_r by done.
      rewrite IH by by destruct block. by rewrite <- app_assoc.
    + apply not_true_is_false in Hk. rewrite Hk. by apply IH.
Qed.

Lemma collect_block_consumed ls ab block ab' block' ls' :
  collect_block ab block ls = (ab', block', ls') →
  ∃ consumed,
    ls = consumed ++ ls' ∧ Forall (λ l, block_boundary l = false) consumed.
Proof.
  revert ab block. induction ls as [|l ls IH]; intros ab block; simpl.
  - intros [= <- <- <-]. by exists [].
  - destruct (negb (re_opening_prefix l) &&
              negb (str_startswith "section" (str_lower l))) eqn:Hb.
    2:{ intros [= <- <- <-]. by exists []. }
    assert (block_boundary l = false) as Hl.
    { unfold block_boundary. apply andb_prop in Hb as [H1 H2].
      apply negb_true_iff in H1, H2. by rewrite H1, H2. }
    intros H.
    assert (∃ a b, collect_block a b ls = (ab', block', ls')) as (a & b & H').
    { repeat (destruct (_ && _) in H); eauto. }
    apply IH in H' as (consumed & -> & Hall).
    exists (l :: consumed). split; [done|]. by constructor.
Qed.

(** X9. The body of a Section B/C question whose opening line has a
    non-empty rest: the block runs up to the next line that starts with a
    digit or with "section" (any case), or to the end; the text is the rest
    of the opening line followed by the lines of the block that neither
    match the Noise Filter nor equal "(OR)", in their order, joined with
    single spaces; the variant of the opening line is kept. *)
Theorem bc_block_text st sec line qnum ab rest body next :
  cur_section st = Some sec → sec ∈ ["B"; "C"] →
  is_excluded line = false →
  re_opening line = Some (qnum, ab, rest) → rest ≠ "" →
  Forall (λ l, block_boundary l = false) body →
  (∀ l ls, next = l :: ls → block_boundary l = true) →
  loop_body st line (body ++ next) =
    Ok (mkState (Some sec)
          (result st ++
             [mkQuestion sec (str_strip (qnum +:+ " " +:+ ab))
                (str_join " " (rest :: filter (λ l, body_line l = true) body))])
          next).
Proof.
  intros Hsec Hbc Hex Ho Hrest Hbody Hnext.
  pose proof Ho as (r & _ & Hd & _)%re_opening_inv.
  rewrite (loop_body_section_bc st sec); try done.
  - unfold section_bc. rewrite Ho, (bool_decide_eq_true_2 _ Hbc).
    destruct (String.eqb_spec rest ""); [done|].
    rewrite collect_block_spec by done. by rewrite Hsec.
  - intros ->. clear -Hbc.
    repeat (apply elem_of_cons in Hbc as [?|Hbc]; [done|]).
    by apply elem_of_nil in Hbc.
  - by eapply digit_not_header.
Qed.

Lemma bc_block_text_witness :
  loop_body (mkState (Some "C") [] []) "16 B Discuss hashing."
    (["with examples."; "(OR)"; "Semester: II"; "and costs."] ++ ["17 Next"])
  = Ok (mkState (Some "C")
          [mkQuestion "C" "16 B" "Discuss hashing. with examples. and costs."]
          ["17 Next"]).
Proof.
  assert ("C" ∈ ["B"; "C"]) as Hsec by apply list_elem_of_further, list_elem_of_here.
  assert ("Discuss hashing." ≠ "") as Hne by done.
  assert (∀ l ls, ["17 Next"] = l :: ls → block_boundary l = true) as Hnext.
  { by intros l ls [= <- <-]. }
  assert (Forall (λ l, block_boundary l = false)
            ["with examples."; "(OR)"; "Semester: II"; "and costs."]) as Hbody.
  { repeat (apply Forall_cons; split; [vm_compute; reflexivity|]).
    apply Forall_nil_2. }
  exact (bc_block_text (mkState (Some "C") [] []) "C" "16 B Discuss hashing."
           "16" "B" "Discuss hashing." _ _ eq_refl Hsec eq_refl eq_refl Hne
           Hbody Hnext).
Defined.

(** ** No opening of Sections B and C is lost *)

Lemma count_consumed consumed ls :
  Forall (λ l, block_boundary l = false) consumed →
  filter (λ l, opening_line l = true) (consumed ++ ls)
  = filter (λ l, opening_line l = true) ls.
Proof.
  induction 1 as [|l consumed Hl _ IH]; [done|]. simpl.
  rewrite filter_cons, decide_False; [done|].
  unfold block_boundary in Hl. apply orb_false_elim in Hl as [Hl _].
  unfold opening_line. by rewrite Hl.
Qed.

Lemma loop_body_count st sec line tail st' :
  cur_section st = Some sec → sec ∈ ["B"; "C"] →
  spaces_inside line = true →
  str_startswith "section a" (str_lower line) = false →
  loop_body st line tail = Ok st' →
  (∃ sec', cur_section st' = Some sec' ∧ sec' ∈ ["B"; "C"]) ∧
  pending st' `suffix_of` tail ∧
  length (result st') +
    length (filter (λ l, opening_line l = true) (pending st'))
  = length (result st) +
    length (filter (λ l, opening_line l = true) (line :: tail)).
Proof.
  intros Hsec Hbc Hin Ha. unfold loop_body. rewrite Ha, Hsec.
  assert (sec ≠ "A") as Hne.
  { intros ->. clear -Hbc.
    repeat (apply elem_of_cons in Hbc as [?|Hbc]; [done|]).
    by apply elem_of_nil in Hbc. }
  assert (∀ P : Prop, "B" ∈ ["B"; "C"] ∧ "C" ∈ ["B"; "C"]) as Hmem.
  { intros _. split; [left|right; left]. }
  destruct (str_startswith "section b" (str_lower line)) eqn:Hb.
  { intros [= <-]. simpl. split; [exists "B"; split; [done|left]|]. split; [done|].
    rewrite filter_cons, decide_False; [done|].
    unfold opening_line. by rewrite (header_not_digit _ _ Hb). }
  destruct (str_startswith "section c" (str_lower line)) eqn:Hc.
  { intros [= <-]. simpl.
    split; [exists "C"; split; [done|right; left]|]. split; [done|].
    rewrite filter_cons, decide_False; [done|].
    unfold opening_line. by rewrite (header_not_digit _ _ Hc). }
  destruct (is_excluded line) eqn:Hex.
  { intros [= <-]. simpl. split; [by exists sec|]. split; [done|].
    rewrite filter_cons, decide_False; [done|].
    unfold opening_line. rewrite Hex. by rewrite andb_false_r. }
  destruct (String.eqb_spec sec "A"); [done|]. intros [= <-].
  unfold section_bc.
  destruct (re_opening line) as [[[qnum ab] rest]|] eqn:Ho.
  - rewrite (bool_decide_eq_true_2 _ Hbc).
    destruct (collect_block _ _ _) as [[ab' block] ls'] eqn:Eb. simpl.
    apply collect_block_consumed in Eb as (consumed & -> & Hall).
    split; [by exists sec|]. split; [by apply suffix_app_r|].
    rewrite filter_cons, decide_True.
    + rewrite count_consumed by done. rewrite length_app. simpl. lia.
    + unfold opening_line. rewrite Hex.
      apply re_opening_inv in Ho as (r & _ & Hd & _).
      apply re_digits12_inv in Hd as (-> & c & q & -> & Hc').
      rewrite app_String. unfold re_opening_prefix. by rewrite Hc'.
  - simpl. split; [by exists sec|]. split; [done|].
    rewrite filter_cons, decide_False; [done|].
    unfold opening_line. destruct (re_opening_prefix line) eqn:Hd; [|done].
    destruct (re_opening_spaces_inside line Hin Hd) as (? & ? & ? & ?).
    congruence.
Qed.

Lemma loop_count fuel st qs :
  (∃ sec, cur_section st = Some sec ∧ sec ∈ ["B"; "C"]) →
  Forall (λ l, spaces_inside l = true ∧
               str_startswith "section a" (str_lower l) = false) (pending st) →
  loop fuel st = Ok qs →
  length qs = length (result st) +
              length (filter (λ l, opening_line l = true) (pending st)).
Proof.
  revert st. induction fuel as [|fuel IH]; intros st (sec & Hsec & Hbc) Hall Hrun;
    simpl in Hrun; destruct (pending st) as [|line tail] eqn:Hp; try done.
  - injection Hrun as <-. simpl. lia.
  - injection Hrun as <-. simpl. lia.
  - apply res_bind_ok in Hrun as (st' & Hbody & Hrun).
    apply Forall_cons in Hall as [[Hin Ha] Hall].
    destruct (loop_body_count st sec line tail st' Hsec Hbc Hin Ha Hbody)
      as (Hsec' & [k Hsuf] & Hcount).
    rewrite (IH st' Hsec'); [done| |done].
    rewrite Hsuf in Hall. by apply Forall_app in Hall as [_ ?].
Qed.

(** X10. In a paper whose first line is the header of Section B or C and
    which has no header of Section A, no opening is lost and none is
    counted twice: [extract_questions] returns as many questions as there
    are normalized lines that start with a digit and do not match the
    Noise Filter. *)
Theorem bc_question_count raw_lines h ls qs :
  normalize raw_lines = h :: ls →
  str_startswith "section b" (str_lower h) = true ∨
  str_startswith "section c" (str_lower h) = true →
  Forall (λ l, str_startswith "section a" (str_lower l) = false) (h :: ls) →
  extract_questions raw_lines = Ok qs →
  length qs = length (filter (λ l, opening_line l = true) ls).
Proof.
  unfold extract_questions. intros Hn Hh Hall Hrun. rewrite Hn in Hrun.
  apply Forall_cons in Hall as [Ha Hall]. simpl in Hrun.
  assert (∃ sec, sec ∈ ["B"; "C"] ∧
            loop_body (mkState None [] (h :: ls)) h ls
            = Ok (mkState (Some sec) [] ls)) as (sec & Hsec & Hbody).
  { unfold loop_body. rewrite Ha.
    destruct (str_startswith "section b" (str_lower h)) eqn:Hb.
    - exists "B". split; [left|done].
    - destruct Hh as [?|Hc]; [done|]. rewrite Hc.
      exists "C". split; [right; left|done]. }
  rewrite Hbody in Hrun. simpl in Hrun.
  apply loop_count in Hrun; [done|by exists sec|]. simpl.
  apply Forall_forall. intros l Hl. split.
  - assert (l ∈ normalize raw_lines) as Hin by (rewrite Hn; by right).
    apply normalize_from_clean in Hin as (l' & _ & ->).
    apply single_spaced_inside, clean_line_single_spaced.
  - by eapply Forall_forall in Hall.
Qed.

Lemma bc_question_count_witness :
  length [mkQuestion "B" "11 A" "Explain stacks.";
          mkQuestion "B" "11 B" "Explain queues. with an example";
          mkQuestion "C" "16" "Discuss hashing."]
  = length (filter (λ l, opening_line l = true)
              ["Answer all questions"; "11 A Explain stacks."; "(OR)";
               "11 B Explain queues."; "with an example"; "Section C";
               "2023 Batch: II"; "16 Discuss hashing."]).
Proof.
  apply (bc_question_count
           ["Section B"; "Answer all questions"; "11 A Explain stacks."; "(OR)";
            "11 B Explain queues."; "with an example"; "Section C";
            "2023 Batch: II"; "16 Discuss hashing."]
           "Section B").
  - vm_compute. reflexivity.
  - left. vm_compute. reflexivity.
  - repeat (apply Forall_cons; split; [vm_compute; reflexivity|]).
    apply Forall_nil_2.
  - vm_compute. reflexivity.
Defined.

(** ** Sorting a sorted list *)

Lemma str_leb_not_ltb a b : String.leb a b = true → String.ltb b a = false.
Proof.
  unfold String.leb, String.ltb. rewrite (String.compare_antisym b a).
  by destruct (String.compare a b).
Qed.

Lemma key_le_not_lt a b : key_le a b → key_lt b a = false.
Proof.
  destruct a as [[a1 a2] a3], b as [[b1 b2] b3]. unfold key_le, key_lt. simpl.
  intros [H|[-> [H|[-> H]]]].
  - destruct (N.eqb_spec b1 a1); simpl; [lia|]. apply N.ltb_ge. lia.
  - rewrite N.eqb_refl. simpl.
    destruct (N.eqb_spec b2 a2); simpl; [lia|]. apply N.ltb_ge. lia.
  - rewrite !N.eqb_refl. simpl. by apply str_leb_not_ltb.
Qed.

Lemma sorted_strongly_sorted l :
  StronglySorted (λ p q, key_le (sort_key p) (sort_key q)) (sorted l).
Proof.
  induction l as [|x l IH]; simpl; [constructor|].
  by apply insert_by_key_sorted.
Qed.

Lemma sorted_fixed l :
  StronglySorted (λ p q, key_le (sort_key p) (sort_key q)) l → sorted l = l.
Proof.
  induction 1 as [|x l Hs IH Hall]; simpl; [done|]. rewrite IH.
  destruct l as [|y l]; [done|]. simpl.
  apply Forall_cons in Hall as [Hxy _]. by rewrite (key_le_not_lt _ _ Hxy).
Qed.

(** X11. Sorting is idempotent: [sorted] leaves a list that is in
    ascending key order as it is, so sorting the sorted questions again, as
    a consumer downstream might, changes nothing. *)
Theorem sorted_idempotent questions :
  sorted (sorted questions) = sorted questions.
Proof. apply sorted_fixed, sorted_strongly_sorted. Qed.

(** ** Metadata *)

Example scenario6 :
  extract_metadata ["Name: Jane Doe"; "Subject Title: Data Structures"]
  = (Some "Jane Doe", Some "Data Structures").
Proof. vm_compute. reflexivity. Qed.

Lemma extract_metadata_from_last name subject raw_lines :
  extract_metadata_from name subject raw_lines
  = (from_option (λ l, Some (metadata_value l)) name
       (last (filter (λ l, is_name_line l = true) raw_lines)),
     from_option (λ l, Some (metadata_value l)) subject
       (last (filter (λ l, is_subject_line l = true) raw_lines))).
Proof.
  revert name subject. induction raw_lines as [|line ls IH];
    intros name subject; simpl; [done|].
  rewrite IH, !filter_cons. f_equal.
  - destruct (decide (is_name_line line = true)) as [E|E].
    + rewrite E, last_cons. by destruct (last _).
    + apply not_true_is_false in E. by rewrite E.
  - destruct (decide (is_subject_line line = true)) as [E|E].
    + rewrite E, last_cons.
      by destruct (last (filter (λ l, is_subject_line l = true) ls)).
    + apply not_true_is_false in E. by rewrite E.
Qed.

(** X12. [extract_metadata] returns, for the name and for the subject, the
    value of the last line that starts (stripped, in any case) with "name:",
    respectively "subject title:", and [None] when no line does; the lines
    of a second list override those of a first one field by field. *)
Theorem extract_metadata_last_wins raw_lines more :
  extract_metadata raw_lines
  = (metadata_value <$> last (filter (λ l, is_name_line l = true) raw_lines),
     metadata_value <$> last (filter (λ l, is_subject_line l = true) raw_lines)) ∧
  extract_metadata (raw_lines ++ more)
  = (from_option Some (extract_metadata raw_lines).1 (extract_metadata more).1,
     from_option Some (extract_metadata raw_lines).2 (extract_metadata more).2).
Proof.
  unfold extract_metadata. rewrite !extract_metadata_from_last. split.
  - f_equal; by destruct (last _).
  - simpl. rewrite !filter_app.
    f_equal.
    + destruct (filter _ more) as [|x l] using rev_ind.
      * rewrite app_nil_r. simpl. by destruct (last _).
      * by rewrite app_assoc, !last_snoc.
    + destruct (filter (λ l, is_subject_line l = true) more) as [|x l] using rev_ind.
      * rewrite app_nil_r. simpl. by destruct (last _).
      * by rewrite app_assoc, !last_snoc.
Qed.

Lemma colon_lower c : Ascii.eqb (lower_char c) ":" = Ascii.eqb c ":".
Proof. by destruct c as [[] [] [] [] [] [] [] []]. Qed.

Lemma space_not_colon c : is_space c = true → Ascii.eqb c ":" = false.
Proof. by destruct c as [[] [] [] [] [] [] [] []]. Qed.

Lemma after_first_colon_lstrip s :
  after_first_colon (str_lstrip s) = after_first_colon s.
Proof.
  induction s as [|c s IH]; simpl; [done|].
  destruct (is_space c) eqn:Hc; [|done]. by rewrite space_not_colon.
Qed.

(** A key that ends with its only colon, at the start of [t] in any case:
    the first colon of [t] is the one of the key. *)
Lemma after_first_colon_key key t :
  after_first_colon key = Some "" →
  str_startswith key (str_lower t) = true →
  after_first_colon t = Some (str_drop (String.length key) t).
Proof.
  revert t. induction key as [|a key IH]; intros [|c t]; try done.
  unfold str_lower. simpl str_map. rewrite str_startswith_cons. simpl.
  intros Hkey [Hac Hst]%andb_prop. apply Ascii.eqb_eq in Hac as ->.
  rewrite colon_lower in Hkey. destruct (Ascii.eqb c ":"); [|by apply IH].
  injection Hkey as ->. done.
Qed.

Lemma str_rstrip_split s : ∃ ws, s = str_rstrip s +:+ ws ∧ all_space ws = true.
Proof.
  induction s as [|c s (ws & IH & Hws)]; simpl; [by exists ""|].
  destruct (str_rstrip s) as [|d r] eqn:E.
  - simpl in IH. subst s. destruct (is_space c) eqn:Hc.
    + exists (String c ws). simpl. by rewrite Hc.
    + by exists ws.
  - exists ws. split; [|done]. rewrite app_String. by f_equal.
Qed.

Lemma str_rstrip_spaces s ws :
  all_space ws = true → str_rstrip (s +:+ ws) = str_rstrip s.
Proof.
  intros Hws. induction s as [|c s IH].
  - by apply all_space_rstrip.
  - rewrite app_String. simpl. by rewrite IH.
Qed.

Lemma all_space_app s t :
  all_space (s +:+ t) = all_space s && all_space t.
Proof.
  induction s as [|c s IH]; [done|]. rewrite app_String. simpl.
  by rewrite IH, andb_assoc.
Qed.

Lemma str_strip_spaces s ws :
  all_space ws = true → str_strip (s +:+ ws) = str_strip s.
Proof.
  intros Hws. unfold str_strip.
  destruct (all_space s) eqn:Hs.
  - assert (all_space (s +:+ ws) = true) as H by by rewrite all_space_app, Hs.
    apply all_space_lstrip in H, Hs. by rewrite H, Hs.
  - assert (str_lstrip (s +:+ ws) = str_lstrip s +:+ ws) as ->.
    { clear Hws. induction s as [|c s IH]; [done|]. rewrite app_String.
      simpl in *. destruct (is_space c); [by apply IH|done]. }
    by apply str_rstrip_spaces.
Qed.

Lemma str_drop_app n s t :
  n ≤ String.length s → str_drop n (s +:+ t) = str_drop n s +:+ t.
Proof.
  revert s. induction n as [|n IH]; intros [|c s]; simpl; try done; [lia|].
  intros H. apply IH. lia.
Qed.

(** X13. The value that [extract_metadata] takes from a line starting,
    once stripped and in any case, with "name:" or "subject title:" is the
    stripped line without this prefix, stripped again: the first colon of
    the line is the colon of the prefix. *)
Theorem metadata_value_after_prefix key line :
  key ∈ ["name:"; "subject title:"] →
  str_startswith key (str_lower (str_strip line)) = true →
  metadata_value line
  = str_strip (str_drop (String.length key) (str_strip line)).
Proof.
  intros Hkey Hst.
  assert (after_first_colon key = Some "") as Hcolon
    by (clear -Hkey; elem_cases Hkey).
  unfold metadata_value, split_colon_last.
  rewrite <- after_first_colon_lstrip.
  unfold str_strip in Hst |- * at 2.
  destruct (str_rstrip_split (str_lstrip line)) as (ws & E & Hws).
  pose proof (str_startswith_length _ _ Hst) as Hlen.
  unfold str_lower in Hlen. rewrite str_map_length in Hlen.
  rewrite (after_first_colon_key key (str_lstrip line) Hcolon).
  - simpl. rewrite E at 1. rewrite str_drop_app by done.
    by apply str_strip_spaces.
  - rewrite E, str_lower_app. by apply str_startswith_app.
Qed.

Lemma metadata_value_after_prefix_witness :
  metadata_value "  SUBJECT Title:  Data: Structures  "
  = str_strip (str_drop (String.length "subject title:")
                 (str_strip "  SUBJECT Title:  Data: Structures  ")).
Proof.
  apply (metadata_value_after_prefix "subject title:").
  - apply list_elem_of_further, list_elem_of_here.
  - vm_compute. reflexivity.
Defined.

(** Lower-casing commutes with stripping and cleaning. *)
Lemma is_space_lower c : is_space (lower_char c) = is_space c.
Proof. by destruct c as [[] [] [] [] [] [] [] []]. Qed.

Lemma str_lstrip_lower s : str_lstrip (str_lower s) = str_lower (str_lstrip s).
Proof.
  unfold str_lower. induction s as [|c s IH]; simpl; [done|].
  rewrite is_space_lower. by destruct (is_space c).
Qed.

Lemma str_rstrip_lower s : str_rstrip (str_lower s) = str_lower (str_rstrip s).
Proof.
  unfold str_lower. induction s as [|c s IH]; simpl; [done|].
  rewrite IH, is_space_lower.
  destruct (str_rstrip s); simpl; [by destruct (is_space c)|done].
Qed.

Lemma sub_spaces_lower b s :
  sub_spaces b (str_lower s) = str_lower (sub_spaces b s).
Proof.
  unfold str_lower. revert b. induction s as [|c s IH]; intros b; simpl; [done|].
  rewrite is_space_lower.
  destruct (is_space c); [destruct b|]; simpl; by rewrite IH.
Qed.

Lemma clean_line_lower s : clean_line (str_lower s) = str_lower (clean_line s).
Proof.
  unfold clean_line, str_strip.
  by rewrite str_lstrip_lower, str_rstrip_lower, sub_spaces_lower.
Qed.

Lemma str_startswith_split p s :
  str_startswith p s = true → ∃ r, s = p +:+ r.
Proof.
  revert s. induction p as [|a p IH]; intros s; [by exists s|].
  destruct s as [|b s]; [done|]. rewrite str_startswith_cons.
  intros [->%Ascii.eqb_eq [r ->]%IH]%andb_prop. by exists r.
Qed.

Lemma str_in_prefix key r : str_in key (key +:+ r) = true.
Proof.
  assert (str_startswith key (key +:+ r) = true) as H.
  { induction key as [|a key IH]; [done|].
    rewrite app_String, str_startswith_cons, IH. by rewrite Ascii.eqb_refl. }
  destruct (key +:+ r); simpl; by rewrite H.
Qed.

(** X14. A line from which [extract_metadata] takes the subject is noise
    for [extract_questions]: its cleaned form always matches the Noise
    Filter. *)
Theorem subject_line_is_noise line :
  is_subject_line line = true → is_excluded (clean_line line) = true.
Proof.
  unfold is_subject_line. intros [r Hr]%str_startswith_split.
  unfold is_excluded. rewrite <- clean_line_lower. unfold clean_line.
  assert (str_strip (str_lower line) = str_lower (str_strip line)) as ->.
  { unfold str_strip. by rewrite str_lstrip_lower, str_rstrip_lower. }
  rewrite Hr.
  change (sub_spaces false ("subject title:" +:+ r))
    with ("subject title:" +:+ sub_spaces false r).
  apply existsb_exists. exists "subject title:". split.
  - unfold EXCLUDE_SUBSTRS. simpl. tauto.
  - apply str_in_prefix.
Qed.

Lemma subject_line_is_noise_witness :
  is_excluded (clean_line "  SUBJECT Title:  Data   Structures ") = true.
Proof.
  apply subject_line_is_noise. vm_compute. reflexivity.
Defined.

(** ** The timer's announcement *)

Example formatted_remaining_examples :
  formatted_remaining 7200 = "2 hours 0 minutes 0 seconds remaining" ∧
  formatted_remaining 3725 = "1 hours 2 minutes 5 seconds remaining" ∧
  formatted_remaining 59 = "0 hours 0 minutes 59 seconds remaining" ∧
  formatted_remaining 0 = "Time is up.".
Proof. vm_compute. done. Qed.

(** X15. For a positive number of seconds the announcement names hours,
    minutes and seconds that add up to it, with minutes and seconds below
    sixty. *)
Theorem formatted_remaining_parts seconds :
  (0 < seconds)%Z →
  ∃ hrs mins secs,
    formatted_remaining seconds
    = str_of_int hrs +:+ " hours " +:+ str_of_int mins +:+ " minutes " +:+
      str_of_int secs +:+ " seconds remaining" ∧
    (0 ≤ hrs ∧ 0 ≤ mins < 60 ∧ 0 ≤ secs < 60)%Z ∧
    (3600 * hrs + 60 * mins + secs = seconds)%Z.
Proof.
  intros Hpos. unfold formatted_remaining.
  destruct (Z.leb_spec seconds 0); [lia|].
  exists (seconds / 60 / 60)%Z, ((seconds / 60) mod 60)%Z, (seconds mod 60)%Z.
  split; [done|].
  pose proof (Z.div_mod seconds 60 ltac:(lia)).
  pose proof (Z.div_mod (seconds / 60) 60 ltac:(lia)).
  pose proof (Z.mod_pos_bound seconds 60 ltac:(lia)).
  pose proof (Z.mod_pos_bound (seconds / 60) 60 ltac:(lia)).
  assert (0 ≤ seconds / 60 / 60)%Z by (apply Z.div_pos; [apply Z.div_pos|]; lia).
  lia.
Qed.

Lemma formatted_remaining_parts_witness :
  ∃ hrs mins secs,
    formatted_remaining 3725
    = str_of_int hrs +:+ " hours " +:+ str_of_int mins +:+ " minutes " +:+
      str_of_int secs +:+ " seconds remaining" ∧
    (0 ≤ hrs ∧ 0 ≤ mins < 60 ∧ 0 ≤ secs < 60)%Z ∧
    (3600 * hrs + 60 * mins + secs = 3725)%Z.
Proof. apply formatted_remaining_parts. lia. Defined.

(** ** The question-and-answer loop of [main] *)

Example main_example :
  main (mkDocument ["Name: Jane Doe"; "Subject Title: Data Structures";
                    "Section B"; "12 Define a stack."; "Section A";
                    "1 What is 2+2?"; "A 3"; "B 4"] [])
       [Some "Yes I am."; Some "Repeat please"; Some "B";
        Some "What TIME is it"; None]
  = Ok (Saved
          [mkAnswer "1" ("What is 2+2?" +:+ String newline "A. 3"
                         +:+ String newline "B. 4") "b";
           mkAnswer "2" "Define a stack." ""]
          [mkAnswer "1" ("What is 2+2?" +:+ String newline "A. 3"
                         +:+ String newline "B. 4") "b";
           mkAnswer "2" "Define a stack." ""]) ∧
  main (mkDocument ["Name: Jane Doe"; "Subject Title: Data Structures";
                    "Section B"; "12 Define a stack."] [])
       [Some "yes"; Some "Skip this, repeat the next"]
  = Ok (Saved [mkAnswer "1" "Define a stack." "[SKIPPED]"] []) ∧
  main (mkDocument ["Name: Jane Doe"; "Subject Title: Data Structures";
                    "Section B"; "12 Define a stack."] [])
       [Some "yes"; Some "repeat"]
  = Diverge.
Proof. vm_compute. done. Qed.

Lemma lower_char_not_S c : lower_char c ≠ "S"%char.
Proof. by destruct c as [[] [] [] [] [] [] [] []]. Qed.

Lemma heard_answer_not_skipped h : heard_answer h ≠ "[SKIPPED]".
Proof.
  destruct h as [t|]; [|done]. simpl. unfold str_lower.
  destruct t as [|c1 [|c2 t]]; try done. simpl. intros [= _ H _].
  by apply lower_char_not_S in H.
Qed.

Lemma ask_spec idx qtext heard item normal heard' :
  ask idx qtext heard = Ok (item, normal, heard') →
  qa_label item = str_of_int idx ∧ qa_text item = qtext ∧
  answer_recorded item ∧
  (normal = false ↔ qa_answer item = "[SKIPPED]").
Proof.
  induction heard as [|h heard IH]; simpl; [done|].
  destruct (str_in "skip" (heard_answer h)) eqn:Hskip.
  { intros [= <- <- <-]. simpl. repeat split; try done. by left. }
  destruct (str_in "repeat" (heard_answer h)) eqn:Hrep; [done|].
  destruct (str_in "time" (heard_answer h)) eqn:Htime; [done|].
  intros [= <- <- <-]. simpl. repeat split; try done.
  - right. by exists h.
  - intros E. by apply heard_answer_not_skipped in E.
Qed.

Lemma ask_all_spec questions idx heard items0 progress0 items progress :
  ask_all idx questions heard items0 progress0 = Ok (items, progress) →
  ∃ new,
    items = items0 ++ new ∧
    progress = progress0 ++ filter (λ a, qa_answer a ≠ "[SKIPPED]") new ∧
    qa_text <$> new = text <$> questions ∧
    qa_label <$> new = str_of_int <$> seqZ idx (Z.of_nat (length questions)) ∧
    Forall answer_recorded new.
Proof.
  revert idx heard items0 progress0.
  induction questions as [|q qs IH]; intros idx heard items0 progress0; simpl.
  - intros [= <- <-]. exists []. by rewrite !app_nil_r.
  - intros ([[item normal] heard'] & Hask & Hrest)%res_bind_ok.
    apply ask_spec in Hask as (Hlabel & Htext & Hrec & Hnormal).
    apply IH in Hrest as (new & -> & -> & Htexts & Hlabels & Hall).
    exists (item :: new). rewrite <- !app_assoc. simpl.
    split; [done|]. split; [|split; [|split]].
    + rewrite filter_cons. destruct normal.
      * rewrite decide_True, <- app_assoc; [done|].
        intros E. by apply Hnormal in E.
      * rewrite decide_False; [done|]. intros E. apply E. by apply Hnormal.
    + f_equal; [done|exact Htexts].
    + rewrite seqZ_cons by lia. rewrite fmap_cons, Hlabel. f_equal.
      etransitivity; [exact Hlabels|]. do 2 f_equal; lia.
    + by constructor.
Qed.

Lemma str_of_int_inj a b : str_of_int a = str_of_int b → a = b.
Proof.
  unfold str_of_int. intros H.
  apply (f_equal DecimalString.NilZero.int_of_string) in H.
  assert (∀ z, Z.to_int z ≠ Decimal.Pos Decimal.Nil ∧
               Z.to_int z ≠ Decimal.Neg Decimal.Nil) as Hnil.
  { intros [|p|p]; simpl; split; try done; intros [= E];
      by apply DecimalPos.Unsigned.to_uint_nonnil in E. }
  rewrite !DecimalString.NilZero.isi in H by apply Hnil.
  injection H as H. by apply DecimalZ.to_int_inj.
Qed.

Lemma main_saved doc heard items progress :
  main doc heard = Ok (Saved items progress) →
  ∃ name subject h heard' qs,
    extract_metadata (get_all_text doc) = (Some name, Some subject) ∧
    name ≠ "" ∧ subject ≠ "" ∧
    heard = h :: heard' ∧ str_in "yes" (heard_answer h) = true ∧
    extract_questions_doc doc = Ok qs ∧ qs ≠ [] ∧
    ask_all 1 (sorted qs) heard' [] [] = Ok (items, progress).
Proof.
  unfold main.
  destruct (extract_metadata (get_all_text doc)) as [name subject].
  destruct name as [[|c1 n]|]; simpl; try done.
  destruct subject as [[|c2 s]|]; simpl; try done.
  destruct heard as [|h heard']; [done|].
  destruct (str_in "yes" (heard_answer h)) eqn:Hyes; simpl; [|done].
  intros (qs & Hqs & H)%res_bind_ok. destruct qs as [|q qs]; [done|].
  apply res_bind_ok in H as ([items' progress'] & Hask & [= <- <-]).
  exists (String c1 n), (String c2 s), h, heard', (q :: qs).
  by repeat split.
Qed.

(** X16. When [main] reaches [save_answers_docx], the document gave a
    non-empty name and subject, the first response contained "yes", and
    the saved items stand for the sorted questions one by one: item number
    [i] carries the text of the [i]-th sorted question and the label [i] in
    decimal, counting from 1, whatever the label of the question was; the
    labels are pairwise different. *)
Theorem main_saved_items doc heard items progress :
  main doc heard = Ok (Saved items progress) →
  ∃ name subject h heard' qs,
    extract_metadata (get_all_text doc) = (Some name, Some subject) ∧
    name ≠ "" ∧ subject ≠ "" ∧
    heard = h :: heard' ∧ str_in "yes" (heard_answer h) = true ∧
    extract_questions_doc doc = Ok qs ∧ qs ≠ [] ∧
    qa_text <$> items = text <$> sorted qs ∧
    qa_label <$> items = str_of_int <$> seqZ 1 (Z.of_nat (length qs)) ∧
    NoDup (qa_label <$> items).
Proof.
  intros (name & subject & h & heard' & qs & Hmeta & Hn & Hs & -> & Hyes &
          Hqs & Hne & Hask)%main_saved.
  apply ask_all_spec in Hask as (new & -> & _ & Htexts & Hlabels & _).
  assert (length (sorted qs) = length qs) as Hlen.
  { clear. induction qs as [|x l IH]; simpl; [done|].
    by rewrite (Permutation_length (insert_by_key_perm x (sorted l))), <- IH. }
  rewrite Hlen in Hlabels.
  exists name, subject, h, heard', qs. simpl. repeat split; try done.
  rewrite Hlabels. apply NoDup_fmap_2; [|apply NoDup_seqZ].
  intros a b. apply str_of_int_inj.
Qed.

Lemma main_saved_items_witness :
  ∃ name subject h heard' qs,
    extract_metadata
      (get_all_text
         (mkDocument ["Name: Jane Doe"; "Subject Title: Data Structures";
                      "Section B"; "12 Define a stack."; "Section A";
                      "1 What is 2+2?"] []))
    = (Some name, Some subject) ∧
    name ≠ "" ∧ subject ≠ "" ∧
    [Some "Yes I am."; Some "Repeat please"; Some "Four"; Some "skip"]
    = h :: heard' ∧
    str_in "yes" (heard_answer h) = true ∧
    extract_questions_doc
      (mkDocument ["Name: Jane Doe"; "Subject Title: Data Structures";
                   "Section B"; "12 Define a stack."; "Section A";
                   "1 What is 2+2?"] [])
    = Ok qs ∧ qs ≠ [] ∧
    qa_text <$> [mkAnswer "1" "What is 2+2?" "four";
                 mkAnswer "2" "Define a stack." "[SKIPPED]"]
    = text <$> sorted qs ∧
    qa_label <$> [mkAnswer "1" "What is 2+2?" "four";
                  mkAnswer "2" "Define a stack." "[SKIPPED]"]
    = str_of_int <$> seqZ 1 (Z.of_nat (length qs)) ∧
    NoDup (qa_label <$> [mkAnswer "1" "What is 2+2?" "four";
                         mkAnswer "2" "Define a stack." "[SKIPPED]"]).
Proof.
  apply (main_saved_items _ _ _ [mkAnswer "1" "What is 2+2?" "four"]).
  vm_compute. reflexivity.
Defined.

(** X17. What a run of [main] appends to the live progress list is the
    list of saved items without the skipped ones, in the same order: a
    skipped question is saved with the answer "[SKIPPED]" and never shown
    in the progress feed. *)
Theorem main_progress doc heard items progress :
  main doc heard = Ok (Saved items progress) →
  progress = filter (λ a, qa_answer a ≠ "[SKIPPED]") items.
Proof.
  intros (name & subject & h & heard' & qs & _ & _ & _ & _ & _ & _ & _ &
          Hask)%main_saved.
  by apply ask_all_spec in Hask as (new & -> & -> & _).
Qed.

Lemma main_progress_witness :
  [mkAnswer "1" "What is 2+2?" "four"]
  = filter (λ a, qa_answer a ≠ "[SKIPPED]")
      [mkAnswer "1" "What is 2+2?" "four";
       mkAnswer "2" "Define a stack." "[SKIPPED]"].
Proof.
  apply (main_progress
           (mkDocument ["Name: Jane Doe"; "Subject Title: Data Structures";
                        "Section B"; "12 Define a stack."; "Section A";
                        "1 What is 2+2?"] [])
           [Some "Yes I am."; Some "Repeat please"; Some "Four"; Some "skip"]).
  vm_compute. reflexivity.
Defined.

(** X18. Every answer that [main] saves is the mark "[SKIPPED]" or a
    transcription in lower case that contains none of the words "skip",
    "repeat" and "time": a spoken answer that contains one of these words
    is always taken as a command and never recorded. *)
Theorem main_answers_recorded doc heard items progress :
  main doc heard = Ok (Saved items progress) →
  Forall answer_recorded items.
Proof.
  intros (name & subject & h & heard' & qs & _ & _ & _ & _ & _ & _ & _ &
          Hask)%main_saved.
  by apply ask_all_spec in Hask as (new & -> & _ & _ & _ & Hall).
Qed.

Lemma main_answers_recorded_witness :
  Forall answer_recorded
    [mkAnswer "1" "What is 2+2?" "four";
     mkAnswer "2" "Define a stack." "[SKIPPED]"].
Proof.
  apply (main_answers_recorded
           (mkDocument ["Name: Jane Doe"; "Subject Title: Data Structures";
                        "Section B"; "12 Define a stack."; "Section A";
                        "1 What is 2+2?"] [])
           [Some "Yes I am."; Some "The time is up, repeat"; Some "Four";
            Some "skip"]
           _ [mkAnswer "1" "What is 2+2?" "four"]).
  vm_compute. reflexivity.
Defined.

(** ** What the Line Normalizer keeps *)

Lemma normalize_from_keeps prev raw_lines l :
  l ∈ raw_lines → clean_line l ≠ "" →
  clean_line l ∈ normalize_from prev raw_lines ∨ Some (clean_line l) = prev.
Proof.
  revert prev. induction raw_lines as [|l0 raw IH]; intros prev Hl Hne.
  { by apply elem_of_nil in Hl. }
  simpl. assert (clean_line l = clean_line l0 →
                 clean_line l ∈
                   (if negb (String.eqb (clean_line l0) "") &&
                       negb (bool_decide (Some (clean_line l0) = prev))
                    then [clean_line l0] else []) ++
                   normalize_from (Some (clean_line l0)) raw
                 ∨ Some (clean_line l) = prev) as Hsame.
  { intros E. rewrite <- E.
    destruct (String.eqb_spec (clean_line l) ""); [done|]. simpl.
    case_bool_decide; [by right|]. left. simpl. left. }
  apply elem_of_cons in Hl as [->|Hl]; [by apply Hsame|].
  destruct (IH (Some (clean_line l0)) Hl Hne) as [Hin|[= E]]; [|by apply Hsame].
  left. apply elem_of_app. by right.
Qed.

Lemma normalize_from_sublist prev raw_lines :
  normalize_from prev raw_lines `sublist_of` (clean_line <$> raw_lines).
Proof.
  revert prev. induction raw_lines as [|l raw IH]; intros prev; simpl; [done|].
  destruct (_ && _); simpl.
  - by apply sublist_skip.
  - by apply sublist_cons.
Qed.

(** X19. The Line Normalizer loses no text: the normalized lines are, in
    the order of the input, cleaned raw lines, and a string is among them
    exactly when it is not empty and is the cleaned form of some raw line.
    Only repetitions and empty lines are dropped. *)
Theorem normalize_keeps_lines raw_lines :
  normalize raw_lines `sublist_of` (clean_line <$> raw_lines) ∧
  ∀ x, x ∈ normalize raw_lines ↔
       x ≠ "" ∧ ∃ l, l ∈ raw_lines ∧ x = clean_line l.
Proof.
  split; [apply normalize_from_sublist|]. intros x. split.
  - intros Hx. split.
    + intros ->. by apply normalize_from_no_empty in Hx.
    + by apply normalize_from_clean in Hx.
  - intros [Hne (l & Hl & ->)].
    by destruct (normalize_from_keeps None raw_lines l Hl Hne).
Qed.

(** ** Asking one question *)

(** X20. A question is asked again as long as the response holds "repeat"
    or "time" without "skip"; the first other response settles it and is
    the last one consumed, and the loop has not ended exactly when every
    response so far asked again. *)
Theorem ask_until_settled idx qtext again h rest :
  Forall (λ r, asks_again r = true) again → asks_again h = false →
  ask idx qtext again = Diverge ∧
  ∃ item normal,
    ask idx qtext (again ++ h :: rest) = Ok (item, normal, rest) ∧
    qa_answer item
    = if str_in "skip" (heard_answer h) then "[SKIPPED]" else heard_answer h.
Proof.
  intros Hagain Hh. induction Hagain as [|r again Hr _ [IH1 IH2]].
  - split; [done|]. simpl. unfold asks_again in Hh.
    destruct (str_in "skip" (heard_answer h)); simpl in *; [by eexists _, _|].
    apply orb_false_elim in Hh as [-> ->]. by eexists _, _.
  - simpl. unfold asks_again in Hr.
    destruct (str_in "skip" (heard_answer r)); [done|]. simpl in Hr.
    destruct (str_in "repeat" (heard_answer r)); [done|]. simpl in Hr.
    by rewrite Hr.
Qed.

Lemma ask_until_settled_witness :
  ask 3 "Define a stack." [Some "Repeat"; Some "what time is it"] = Diverge ∧
  ∃ item normal,
    ask 3 "Define a stack."
      ([Some "Repeat"; Some "what time is it"] ++
       Some "skip, no, repeat" :: [Some "A stack is a list."])
    = Ok (item, normal, [Some "A stack is a list."]) ∧
    qa_answer item
    = if str_in "skip" (heard_answer (Some "skip, no, repeat"))
      then "[SKIPPED]" else heard_answer (Some "skip, no, repeat").
Proof.
  apply ask_until_settled.
  - repeat (apply Forall_cons; split; [vm_compute; reflexivity|]).
    apply Forall_nil_2.
  - vm_compute. reflexivity.
Defined.
